(** * coin-annotator: a shallow embedding of [annotate.py]

    The development follows the layout of the program:

    - [PyStr]: the Python string and integer primitives the program calls
      ([str.strip], [str.replace], [str.split], [int], [str], [str.lower],
      text-mode line iteration);
    - [OsPath]: [os.path.splitext] and [os.path.join];
    - the CSV reader and writer ([read_csv], [write_csv]);
    - the annotation session ([on_mouse] and the polling loop of
      [annotate_image]) over a heap of list objects;
    - the session driver ([parse_args], [list_images], [annotate_and_save],
      [main]).

    Conventions.  A Python [str] is a Rocq [string]; each character stands
    for the code point of the same number, so the model covers text whose
    code points are below 256.  A Python [int] is a [Z]; the interpreter's
    configurable cap on the number of digits accepted by [int()] and [str()]
    is not part of the model.  A file is the text Python decodes from it,
    and the file system is a map from paths to such texts.  Mouse
    coordinates are C [int]s.  Of the rendering only what can stop the
    session is modelled: [cv2.circle] rejecting a circle.  What is drawn,
    [cv2.imshow] and the creation and destruction of the window have no
    effect on the session state and are left out. *)

From Stdlib Require Import ZArith Ascii String List Lia Bool Reals Lra Sorted.
From stdpp Require Import gmap strings list fin_maps.

Open Scope Z_scope.

(* ===================================================================== *)
(** ** Python string primitives                                           *)
(* ===================================================================== *)

Module PyStr.

Definition LF : ascii := "010"%char.
Definition CR : ascii := "013"%char.

(** [str.isspace] on one character: the white-space code points below 256
    are 9..13, 28..32, 0x85 and 0xA0. *)
Definition isspace (c : ascii) : bool :=
  let n := N_of_ascii c in
  ((9 <=? n) && (n <=? 13) || (28 <=? n) && (n <=? 32)
   || (n =? 133) || (n =? 160))%N.

Fixpoint lstrip (s : string) : string :=
  match s with
  | EmptyString => EmptyString
  | String c s' => if isspace c then lstrip s' else s
  end.

Fixpoint rstrip (s : string) : string :=
  match s with
  | EmptyString => EmptyString
  | String c s' =>
      match rstrip s' with
      | EmptyString => if isspace c then EmptyString else String c EmptyString
      | t => String c t
      end
  end.

(** [s.strip()] *)
Definition strip (s : string) : string := rstrip (lstrip s).

(** [s.replace(old, new)] for one-character [old] and [new]. *)
Fixpoint replace (old new : ascii) (s : string) : string :=
  match s with
  | EmptyString => EmptyString
  | String c s' =>
      String (if Ascii.eqb c old then new else c) (replace old new s')
  end.

(** [s.split()]: the maximal runs of non-white-space characters. *)
Fixpoint split (s : string) : list string :=
  match s with
  | EmptyString => []
  | String c s' =>
      if isspace c then split s'
      else match s' with
           | EmptyString => [String c EmptyString]
           | String c' _ =>
               if isspace c' then String c EmptyString :: split s'
               else match split s' with
                    | t :: ts => String c t :: ts
                    | [] => [String c EmptyString]
                    end
           end
  end.

(** Text-mode reading with the default [newline=None]: a carriage return,
    alone or followed by a line feed, is read as one line feed. *)
Fixpoint universal_newlines (after_cr : bool) (s : string) : string :=
  match s with
  | EmptyString => EmptyString
  | String c s' =>
      if Ascii.eqb c CR then String LF (universal_newlines true s')
      else if Ascii.eqb c LF then
        (if after_cr then universal_newlines false s'
         else String LF (universal_newlines false s'))
      else String c (universal_newlines false s')
  end.

(** [for line in f]: the lines of the text, each with its terminator; the
    last one may lack it. *)
Fixpoint lines (s : string) : list string :=
  match s with
  | EmptyString => []
  | String c s' =>
      if Ascii.eqb c LF then String c EmptyString :: lines s'
      else match lines s' with
           | l :: ls => String c l :: ls
           | [] => [String c EmptyString]
           end
  end.

Definition digit_value (c : ascii) : option Z :=
  let n := N_of_ascii c in
  if ((48 <=? n) && (n <=? 57))%N then Some (Z.of_N n - 48) else None.

(** The digits of [int(s)]: decimal digits, single underscores allowed
    between two digits. *)
Fixpoint int_digits (s : string) (after_underscore : bool) (acc : Z)
  : option Z :=
  match s with
  | EmptyString => if after_underscore then None else Some acc
  | String c s' =>
      if Ascii.eqb c "_" then
        (if after_underscore then None else int_digits s' true acc)
      else match digit_value c with
           | Some d => int_digits s' false (10 * acc + d)
           | None => None
           end
  end.

(** [int(s)] in base 10 on a token produced by [split] (so without white
    space, which [int] would trim): an optional sign, then digits that do
    not start with an underscore.  [None] stands for [ValueError]. *)
Definition int (s : string) : option Z :=
  let '(neg, body) :=
    match s with
    | String c b =>
        if Ascii.eqb c "+" then (false, b)
        else if Ascii.eqb c "-" then (true, b)
        else (false, s)
    | EmptyString => (false, s)
    end in
  match body with
  | EmptyString => None
  | String c _ =>
      if Ascii.eqb c "_" then None
      else match int_digits body false 0 with
           | Some v => Some (if neg then - v else v)
           | None => None
           end
  end.

Definition digit_char (d : Z) : ascii := ascii_of_N (48 + Z.to_N d).

(** The decimal digits of [n >= 0], most significant first, put in front
    of [acc]. *)
Fixpoint digits (fuel : nat) (n : Z) (acc : string) : string :=
  match fuel with
  | O => acc
  | S fuel' =>
      if n <? 10 then String (digit_char n) acc
      else digits fuel' (n / 10) (String (digit_char (n mod 10)) acc)
  end.

(** [str(z)], also what [f"{z}"] formats. *)
Definition str (z : Z) : string :=
  if z <? 0 then String "-" (digits (S (Z.to_nat (Z.log2 (- z)))) (- z) EmptyString)
  else digits (S (Z.to_nat (Z.log2 z))) z EmptyString.

(** [s.lower()]: below 256 the cased upper-case letters are A..Z and
    0xC0..0xDE except 0xD7. *)
Definition lower_char (c : ascii) : ascii :=
  let n := N_of_ascii c in
  if ((65 <=? n) && (n <=? 90)
      || (192 <=? n) && (n <=? 222) && negb (n =? 215))%N
  then ascii_of_N (n + 32) else c.

Fixpoint lower (s : string) : string :=
  match s with
  | EmptyString => EmptyString
  | String c s' => String (lower_char c) (lower s')
  end.

End PyStr.


(* ===================================================================== *)
(** ** [os.path] (POSIX flavour)                                          *)
(* ===================================================================== *)

Module OsPath.

(** [s.rfind(c)]: the index of the last occurrence of [c], or [-1]. *)
Fixpoint rfind_from (c : ascii) (s : string) (i : Z) (found : Z) : Z :=
  match s with
  | EmptyString => found
  | String d s' => rfind_from c s' (i + 1) (if Ascii.eqb d c then i else found)
  end.

Definition rfind (c : ascii) (s : string) : Z := rfind_from c s 0 (-1).

(** [p[i:i+1] != "."] for an index inside or outside the string. *)
Definition not_dot_at (p : string) (i : Z) : bool :=
  match String.get (Z.to_nat i) p with
  | Some d => negb (Ascii.eqb d ".")
  | None => true
  end.

(** The [while filenameIndex < dotIndex] loop of [genericpath._splitext]:
    [true] when a character other than a dot is met before [dotIndex]. *)
Fixpoint skip_leading_dots (steps : nat) (p : string) (filenameIndex : Z)
  : bool :=
  match steps with
  | O => false
  | S steps' =>
      if not_dot_at p filenameIndex then true
      else skip_leading_dots steps' p (filenameIndex + 1)
  end.

(** [os.path.splitext(p)] *)
Definition splitext (p : string) : string * string :=
  let sepIndex := rfind "/" p in
  let dotIndex := rfind "." p in
  if (sepIndex <? dotIndex)
     && skip_leading_dots (Z.to_nat (dotIndex - (sepIndex + 1))) p (sepIndex + 1)
  then (String.substring 0 (Z.to_nat dotIndex) p,
        String.substring (Z.to_nat dotIndex)
          (String.length p - Z.to_nat dotIndex) p)
  else (p, EmptyString).

Definition startswith_sep (b : string) : bool :=
  match b with
  | String c _ => Ascii.eqb c "/"
  | EmptyString => false
  end.

Fixpoint endswith_sep (a : string) : bool :=
  match a with
  | EmptyString => false
  | String c EmptyString => Ascii.eqb c "/"
  | String _ a' => endswith_sep a'
  end.

(** [os.path.join(a, b)] *)
Definition join (a b : string) : string :=
  if startswith_sep b then b
  else match a with
       | EmptyString => b
       | _ => if endswith_sep a then a +:+ b else a +:+ "/" +:+ b
       end.

End OsPath.

(* ===================================================================== *)
(** ** Data model                                                         *)
(* ===================================================================== *)

(** A circle [(x, y, r)]. *)
Definition circle : Type := Z * Z * Z.

Definition radius (c : circle) : Z := snd c.

(** References to Python list objects and the heap that holds them. *)
Definition loc : Type := nat.

Abbreviation heap := (gmap loc (list circle)).

(** Text files by path. *)
Abbreviation filesystem := (gmap string string).

(** The exceptions the program meets: [ValueError] from [int], and
    [cv2.error] from [cv2.circle]. *)
Inductive exn : Type :=
| ValueError
| CvError.

(** What the user does at the window: a mouse event handed to the callback
    during [cv2.waitKey], or the value [cv2.waitKey] returns ([-1] when no
    key was pressed within the delay). *)
Inductive event : Type :=
| Mouse (kind : Z) (x y : Z)
| Key (code : Z).

Definition EVENT_MOUSEMOVE : Z := 0.
Definition EVENT_LBUTTONDOWN : Z := 1.

Definition KEY_ESC : Z := 27.
Definition KEY_SPACE : Z := 32.
(** [ord("u")] *)
Definition KEY_U : Z := 117.

Record world : Type := mkWorld {
  files : filesystem;
  objects : heap;
  stdout : list string;
  events : list event;
}.

(** The outcome of running a piece of the program: it returns, it raises,
    or it is still polling for input when the recorded events end. *)
Inductive result (A : Type) : Type :=
| Returned (a : A) (w : world)
| Raised (e : exn) (w : world)
| Pending (w : world).

Arguments Returned {A} a w.
Arguments Raised {A} e w.
Arguments Pending {A} w.

(** A piece of the program: it runs from a world to an outcome. *)
Definition prog (A : Type) : Type := world -> result A.

Definition ret {A : Type} (a : A) : prog A := fun w => Returned a w.

Definition bind {A B : Type} (m : prog A) (k : A -> prog B) : prog B :=
  fun w =>
    match m w with
    | Returned a w' => k a w'
    | Raised e w' => Raised e w'
    | Pending w' => Pending w'
    end.

Notation "'do' x <- m ; k" := (bind m (fun x => k))
  (at level 10, x name, m at level 100, k at level 200).
Notation "'do' ' p <- m ; k" := (bind m (fun x => let 'p := x in k))
  (at level 10, p pattern, m at level 100, k at level 200).

Definition final_world {A : Type} (m : result A) : world :=
  match m with
  | Returned _ w => w
  | Raised _ w => w
  | Pending w => w
  end.

Definition add_line (line : string) (w : world) : world :=
  mkWorld (files w) (objects w) (stdout w ++ [line]) (events w).

(** [print(line)] *)
Definition print (line : string) : prog unit :=
  fun w => Returned tt (add_line line w).

(** A new list object holding [l]. *)
Definition alloc (l : list circle) (h : heap) : loc * heap :=
  let a := fresh (dom h) in (a, <[a := l]> h).

Definition set_objects (h : heap) (w : world) : world :=
  mkWorld (files w) h (stdout w) (events w).

Definition set_files (fs : filesystem) (w : world) : world :=
  mkWorld fs (objects w) (stdout w) (events w).

(* ===================================================================== *)
(** ** CSV persistence                                                    *)
(* ===================================================================== *)

(** One iteration of the [for line in f] loop of [read_csv]: [inr None]
    when the line is skipped, [inl ValueError] when [int] rejects a part. *)
Definition read_line (line : string) : exn + option circle :=
  match PyStr.split (PyStr.replace "," " " (PyStr.strip line)) with
  | [a; b; c] =>
      match PyStr.int a with
      | None => inl ValueError
      | Some x =>
          match PyStr.int b with
          | None => inl ValueError
          | Some y =>
              match PyStr.int c with
              | None => inl ValueError
              | Some r => inr (Some (x, y, r))
              end
          end
      end
  | _ => inr None
  end.

Fixpoint read_lines (ls : list string) (circles : list circle)
  : exn + list circle :=
  match ls with
  | [] => inr circles
  | line :: ls' =>
      match read_line line with
      | inl e => inl e
      | inr None => read_lines ls' circles
      | inr (Some c) => read_lines ls' (circles ++ [c])
      end
  end.

(** The list [read_csv(path)] builds, as a value. *)
Definition read_csv_value (fs : filesystem) (path : string)
  : exn + list circle :=
  match fs !! path with
  | None => inr []
  | Some text => read_lines (PyStr.lines (PyStr.universal_newlines false text)) []
  end.

(** [read_csv(path)]: the result is a new list object. *)
Definition read_csv (path : string) : prog loc :=
  fun w =>
    match read_csv_value (files w) path with
    | inl e => Raised e w
    | inr l => let '(a, h) := alloc l (objects w) in Returned a (set_objects h w)
    end.

Definition csv_line (c : circle) : string :=
  let '(x, y, r) := c in
  PyStr.str x +:+ "," +:+ PyStr.str y +:+ "," +:+ PyStr.str r
    +:+ String PyStr.LF EmptyString.

Fixpoint csv_text (circles : list circle) : string :=
  match circles with
  | [] => EmptyString
  | c :: cs => csv_line c +:+ csv_text cs
  end.

(** [write_csv(path, circles)]: the file is created or truncated, then one
    line is written per circle. *)
Definition write_csv (path : string) (circles : loc) : prog unit :=
  fun w =>
    Returned tt
      (set_files (<[path := csv_text (objects w !!! circles)]> (files w)) w).

(* ===================================================================== *)
(** ** The annotation session                                             *)
(* ===================================================================== *)

Module PyFloat.

(** A positive binary64 number, or zero: the pair [(m, f)] stands for
    [m / 2^f], and for [m * 2^(-f)] when [f] is negative. *)
Definition float : Type := Z * Z.

(** [math.hypot(dx, dy)] on two integers that binary64 holds exactly, as
    the offsets between C [int] coordinates are: the binary64 number nearest
    to the exact length, ties to even.  The mantissa has the 53 bits that
    start at the leading bit of the integer square root of [dx*dx + dy*dy];
    the remainder of the square root decides the rounding.  The library
    function is taken to round correctly. *)
Definition hypot (dx dy : Z) : float :=
  let n := dx * dx + dy * dy in
  let f := 52 - Z.log2 (Z.sqrt n) in
  if 0 <=? f then
    let m := Z.sqrt (n * 4 ^ f) in
    (if m <? n * 4 ^ f - m * m then m + 1 else m, f)
  else
    let m := Z.sqrt n / 2 ^ (- f) in
    let half := (2 * m + 1) ^ 2 * 4 ^ (- f - 1) in
    (if (half <? n) || ((half =? n) && Z.odd m) then m + 1 else m, f).

(** [round(v)]: the integer nearest to [v], the even one of the two when
    [v] is half-way. *)
Definition round (v : float) : Z :=
  let '(m, f) := v in
  if 0 <? f then
    let q := m / 2 ^ f in
    let r := m mod 2 ^ f in
    if 2 * r <? 2 ^ f then q
    else if 2 ^ f <? 2 * r then q + 1
    else if Z.even q then q else q + 1
  else m * 2 ^ (- f).

End PyFloat.

(** [int(round(math.hypot(dx, dy)))] *)
Definition round_hypot (dx dy : Z) : Z := PyFloat.round (PyFloat.hypot dx dy).

(** The variables [annotate_image] shares with its [on_mouse] closure,
    together with the heap in which the list object [saved] lives. *)
Record session : Type := mkSession {
  store : heap;
  saved : loc;
  center : Z * Z;
  drawing : bool;
  preview_radius : Z;
  quit_all : bool;
}.

(** The contents of the list object [saved] refers to. *)
Definition circles_of (st : session) : list circle := store st !!! saved st.

Definition on_mouse (kind x y : Z) (st : session) : session :=
  if kind =? EVENT_LBUTTONDOWN then
    if negb (drawing st) then
      mkSession (store st) (saved st) (x, y) true 0 (quit_all st)
    else
      let radius := round_hypot (x - fst (center st)) (y - snd (center st)) in
      mkSession
        (<[saved st :=
             circles_of st ++ [(fst (center st), snd (center st), radius)]]>
           (store st))
        (saved st) (center st) false (preview_radius st) (quit_all st)
  else if (kind =? EVENT_MOUSEMOVE) && drawing st then
    mkSession (store st) (saved st) (center st) (drawing st)
      (round_hypot (x - fst (center st)) (y - snd (center st)))
      (quit_all st)
  else st.

(** How one pass through the body of [while True] ends. *)
Inductive control : Type :=
| Continue (st : session)
| Break (st : session).

(** [saved.pop()] *)
Definition pop (st : session) : session :=
  mkSession (<[saved st := removelast (circles_of st)]> (store st))
    (saved st) (center st) (drawing st) (preview_radius st) (quit_all st).

Definition is_empty (l : list circle) : bool :=
  match l with
  | [] => true
  | _ :: _ => false
  end.

(** The part of the loop body after [cv2.waitKey] has returned [code]. *)
Definition on_key (code : Z) (st : session) : control :=
  let key := Z.land code 255 in
  if key =? KEY_ESC then
    if drawing st then
      Continue (mkSession (store st) (saved st) (center st) false
                  (preview_radius st) (quit_all st))
    else
      Break (mkSession (store st) (saved st) (center st) (drawing st)
               (preview_radius st) true)
  else
    let st1 :=
      if (key =? KEY_U) && negb (is_empty (circles_of st)) then pop st
      else st in
    if key =? KEY_SPACE then Break st1 else Continue st1.

(** The loop of [annotate_image] run on recorded input, as far as the
    session variables go: its drawing is added by [run_loop] below. *)
Inductive loop_outcome : Type :=
| Finished (st : session) (rest : list event)
| Waiting (st : session).

Fixpoint interact (evs : list event) (st : session) : loop_outcome :=
  match evs with
  | [] => Waiting st
  | Mouse kind x y :: evs' => interact evs' (on_mouse kind x y st)
  | Key code :: evs' =>
      match on_key code st with
      | Continue st' => interact evs' st'
      | Break st' => Finished st' evs'
      end
  end.

Definition initial_session (h : heap) (initial : loc) : session :=
  let '(a, h') := alloc (h !!! initial) h in
  mkSession h' a (-1, -1) false 0 false.

(** A Python integer that converts to a C [int]. *)
Definition c_int (z : Z) : bool := (- 2 ^ 31 <=? z) && (z <? 2 ^ 31).

(** [cv2.circle(vis, (x, y), r, ...)] goes through: the three numbers
    convert to C [int]s and the radius is not negative.  Otherwise it raises
    [cv2.error]. *)
Definition circle_ok (x y r : Z) : bool :=
  c_int x && c_int y && c_int r && (0 <=? r).

(** [cv2.circle] draws the circle [c]. *)
Definition drawable (c : circle) : bool :=
  circle_ok (fst (fst c)) (snd (fst c)) (snd c).

(** The drawing at the top of the loop body goes through: every stored
    circle, and the preview when there is one. *)
Definition renders (st : session) : bool :=
  forallb drawable (circles_of st)
  && (if drawing st && (0 <? preview_radius st)
      then circle_ok (fst (center st)) (snd (center st)) (preview_radius st)
      else true).

(** The loop of [annotate_image] with its drawing: it ends as [interact]
    does, or it is stopped by [cv2.circle] raising. *)
Inductive run_outcome : Type :=
| Ran (o : loop_outcome)
| Crashed (st : session) (rest : list event).

(** [at_top] tells whether the loop is at the top of its body, where it
    draws before it calls [cv2.waitKey], or inside [cv2.waitKey], where the
    mouse events are delivered. *)
Fixpoint run_loop (at_top : bool) (evs : list event) (st : session)
  : run_outcome :=
  if at_top && negb (renders st) then Crashed st evs
  else
    match evs with
    | [] => Ran (Waiting st)
    | Mouse kind x y :: evs' => run_loop false evs' (on_mouse kind x y st)
    | Key code :: evs' =>
        match on_key code st with
        | Continue st' => run_loop true evs' st'
        | Break st' => Ran (Finished st' evs')
        end
    end.

Section Host.

(** [cv2.imread] succeeds on these paths. *)
Variable imread : string -> bool.

(** [os.listdir]: the names in a directory, [None] for what is not one. *)
Variable listdir : string -> option (list string).

Definition annotate_image (img_path : string) (initial : loc)
  : prog (loc * bool) :=
  if negb (imread img_path) then
    do _ <- print ("Cannot open image: " +:+ img_path);
    fun w =>
      let '(a, h) := alloc [] (objects w) in
      Returned (a, false) (set_objects h w)
  else
    fun w =>
      match run_loop true (events w) (initial_session (objects w) initial) with
      | Ran (Finished st rest) =>
          Returned (saved st, quit_all st)
            (mkWorld (files w) (store st) (stdout w) rest)
      | Ran (Waiting st) =>
          Pending (mkWorld (files w) (store st) (stdout w) [])
      | Crashed st rest =>
          Raised CvError (mkWorld (files w) (store st) (stdout w) rest)
      end.

(* ===================================================================== *)
(** ** The session driver                                                 *)
(* ===================================================================== *)

Definition DATASET_DIR_DEFAULT : string := "../dataset3".

Definition exts : list string := [".jpg"; ".jpeg"; ".png"]%string.

Definition is_image (name : string) : bool :=
  existsb (String.eqb (snd (OsPath.splitext (PyStr.lower name)))) exts.

Fixpoint insert_sorted (x : string) (l : list string) : list string :=
  match l with
  | [] => [x]
  | y :: l' => if String.leb x y then x :: l else y :: insert_sorted x l'
  end.

(** [sorted(files)] *)
Definition sorted (l : list string) : list string := foldr insert_sorted [] l.

(** [list_images(folder)] on the names [os.listdir(folder)] gives. *)
Definition list_images (names : list string) : list string :=
  sorted (filter (fun name => is_image name = true) names).

Definition nl : string := String PyStr.LF EmptyString.

Definition print_help (name : string) : prog unit :=
  print ("Usage: " +:+ name
         +:+ " [--dataset <path>] [--single <imgname>] [--help]" +:+ nl
         +:+ "Controls:" +:+ nl
         +:+ "  Left click: set center / confirm radius" +:+ nl
         +:+ "  Move mouse: adjust radius when in drawing mode" +:+ nl
         +:+ "  u: undo last circle" +:+ nl
         +:+ "  Space: save current image and advance" +:+ nl
         +:+ "  ESC: if drawing, cancel the circle; otherwise quit" +:+ nl).

(** The [while i < len(argv)] loop of [parse_args], from position [i] on. *)
Fixpoint parse_args_from (argv : list string) (dataset : string)
  (single : option string) (show_help : bool)
  : prog (string * option string * bool) :=
  match argv with
  | [] => ret (dataset, single, show_help)
  | arg :: rest =>
      if String.eqb arg "-h" || String.eqb arg "--help" then
        parse_args_from rest dataset single true
      else
        let unknown :=
          do _ <- print ("Unknown argument: " +:+ arg);
          parse_args_from rest dataset single true in
        match rest with
        | value :: rest' =>
            if String.eqb arg "--dataset" then
              parse_args_from rest' value single show_help
            else if String.eqb arg "--single" then
              parse_args_from rest' dataset (Some value) show_help
            else unknown
        | [] => unknown
        end
  end.

Definition parse_args (argv : list string)
  : prog (string * option string * bool) :=
  parse_args_from argv DATASET_DIR_DEFAULT None false.

(** The truth value of [target]: neither [None] nor the empty string. *)
Definition truthy (target : option string) : bool :=
  match target with
  | Some (String _ _) => true
  | _ => false
  end.

Definition target_name (target : option string) : string :=
  match target with
  | Some name => name
  | None => EmptyString
  end.

Definition csv_path_of (dataset_dir img_name : string) : string :=
  OsPath.join dataset_dir (fst (OsPath.splitext img_name) +:+ ".csv").

Definition annotating_message (img_name : string) : string :=
  "Annotating " +:+ img_name +:+
  " (click center, drag radius, click again; space=next, ESC=quit/cancel, u=undo)".

Definition annotate_and_save (dataset_dir img_name : string) : prog bool :=
  let csv_path := csv_path_of dataset_dir img_name in
  do existing <- read_csv csv_path;
  do _ <- print (annotating_message img_name);
  do '(circles, quit_all) <-
    annotate_image (OsPath.join dataset_dir img_name) existing;
  do _ <- write_csv csv_path circles;
  do _ <- (fun w =>
             print ("Saved "
                    +:+ PyStr.str (Z.of_nat (length (objects w !!! circles)))
                    +:+ " circles to " +:+ csv_path) w);
  ret quit_all.

(** [for name in images: ... if quit_all: break] *)
Fixpoint for_images (dataset_dir : string) (images : list string)
  : prog unit :=
  match images with
  | [] => ret tt
  | name :: rest =>
      do quit_all <- annotate_and_save dataset_dir name;
      if quit_all then ret tt else for_images dataset_dir rest
  end.

(** [main()], with [sys.argv] split into the program name and the rest. *)
Definition main (argv0 : string) (args : list string) : prog unit :=
  do '(dataset_dir, target, want_help) <- parse_args args;
  if want_help then print_help argv0
  else
    match listdir dataset_dir with
    | None => print ("Dataset folder not found: " +:+ dataset_dir)
    | Some names =>
        let images := list_images names in
        match images with
        | [] => print ("No images found in " +:+ dataset_dir)
        | _ :: _ =>
            if truthy target
               && negb (existsb (String.eqb (target_name target)) images)
            then print (target_name target +:+ " not found in " +:+ dataset_dir)
            else if truthy target then
              do _ <- annotate_and_save dataset_dir (target_name target);
              ret tt
            else for_images dataset_dir images
        end
    end.

End Host.

(* ===================================================================== *)
(** ** Vocabulary of the statements                                       *)
(* ===================================================================== *)

Definition control_state (c : control) : session :=
  match c with
  | Continue st => st
  | Break st => st
  end.

Definition outcome_state (o : loop_outcome) : session :=
  match o with
  | Finished st _ => st
  | Waiting st => st
  end.

Definition run_state (o : run_outcome) : session :=
  match o with
  | Ran o' => outcome_state o'
  | Crashed st _ => st
  end.

(** An event that neither presses the button nor is one of the three keys
    of the loop: pointer motion, button release, a poll without a key. *)
Definition quiet (e : event) : bool :=
  match e with
  | Mouse kind _ _ => negb (kind =? EVENT_LBUTTONDOWN)
  | Key code =>
      let key := Z.land code 255 in
      negb (key =? KEY_ESC) && negb (key =? KEY_U) && negb (key =? KEY_SPACE)
  end.

(** A commit as the user performs it: a press that fixes the centre, quiet
    events, a press that confirms the radius, quiet events. *)
Record commit : Type := mkCommit {
  fixed : Z * Z;
  between : list event;
  confirm : Z * Z;
  after : list event;
}.

Definition commit_events (c : commit) : list event :=
  Mouse EVENT_LBUTTONDOWN (fst (fixed c)) (snd (fixed c))
    :: between c
    ++ Mouse EVENT_LBUTTONDOWN (fst (confirm c)) (snd (confirm c))
    :: after c.

Definition commit_circle (c : commit) : circle :=
  (fst (fixed c), snd (fixed c),
   round_hypot (fst (confirm c) - fst (fixed c))
     (snd (confirm c) - snd (fixed c))).

Definition commits_events (cs : list commit) : list event :=
  concat (map commit_events cs).

Definition well_formed (c : commit) : Prop :=
  forallb quiet (between c) = true /\ forallb quiet (after c) = true.

(** [r] is the integer nearest to the square root of [n]. *)
Definition nearest_to_sqrt (n r : Z) : Prop :=
  0 <= r /\ 4 * n < (2 * r + 1) ^ 2 /\ (0 < r -> (2 * r - 1) ^ 2 < 4 * n).

(** [r] is [round(hypot(dx, dy))] over the reals: it lies strictly within
    one half of the Euclidean length of [(dx, dy)], so it is the nearest
    integer whatever the rule for ties. *)
Definition rounds_distance (dx dy r : Z) : Prop :=
  (Rabs (IZR r - sqrt (IZR dx * IZR dx + IZR dy * IZR dy)) < 1 / 2)%R.

(** A session in the [Drawing] state after a press at (10, 10). *)
Definition drawing_example : session :=
  mkSession (<[0%nat := [(1, 2, 3)]]> ∅) 0%nat (10, 10) true 7 false.

(** A dataset folder [d] whose image [a.png] has two circles on file. *)
Definition example_world (evs : list event) : world :=
  mkWorld (<["d/a.csv" := csv_text [(1, 2, 3); (4, 5, 6)]]> ∅) ∅ [] evs.

Definition example_listdir (folder : string) : option (list string) :=
  if String.eqb folder "d" then Some ["b.PNG"; "a.png"; "notes.txt"]%string
  else None.

Fixpoint all_chars (P : ascii -> bool) (s : string) : bool :=
  match s with
  | EmptyString => true
  | String c s' => P c && all_chars P s'
  end.

(** A character of a written number: neither white space nor a comma. *)
Definition plain (c : ascii) : bool :=
  negb (PyStr.isspace c) && negb (Ascii.eqb c ",").

(** The text of one row, without its line feed. *)
Definition row (c : circle) : string :=
  let '(x, y, r) := c in PyStr.str x +:+ "," +:+ PyStr.str y +:+ "," +:+ PyStr.str r.

(** A character that separates the parts of a row: white space or a
    comma. *)
Definition separator (c : ascii) : bool :=
  PyStr.isspace c || Ascii.eqb c ",".

(** The parts [read_csv] splits a line into. *)
Definition parts (line : string) : list string :=
  PyStr.split (PyStr.replace "," " " (PyStr.strip line)).

(** What one event does to the session variables. *)
Definition step (e : event) (st : session) : session :=
  match e with
  | Mouse kind x y => on_mouse kind x y st
  | Key code => control_state (on_key code st)
  end.

Definition is_undo (e : event) : bool :=
  match e with
  | Key code => Z.land code 255 =? KEY_U
  | Mouse _ _ _ => false
  end.

(** How often the undo key occurs in [evs]. *)
Fixpoint undo_count (evs : list event) : nat :=
  match evs with
  | [] => 0%nat
  | e :: evs' => ((if is_undo e then 1 else 0) + undo_count evs')%nat
  end.

(** The button was pressed at [p]. *)
Definition pressed_at (evs : list event) (p : Z * Z) : Prop :=
  In (Mouse EVENT_LBUTTONDOWN (fst p) (snd p)) evs.

(** The store of [st] after the events [past] of a session started with
    the circles [loaded]: what is left of [loaded], at least as many
    circles as the undo key leaves, then circles with centres where the
    button was pressed. *)
Definition store_shape (loaded : list circle) (past : list event)
  (st : session) : Prop :=
  exists (k : nat) (cs : list circle),
    circles_of st = take k loaded ++ cs /\
    (length loaded - undo_count past <= k)%nat /\
    Forall (fun c => pressed_at past (fst c) /\ 0 <= radius c) cs.

(** A separator that does not end the line: a comma, or white space other
    than a line feed or a carriage return. *)
Definition inline_separator (c : ascii) : bool :=
  separator c && negb (Ascii.eqb c PyStr.LF) && negb (Ascii.eqb c PyStr.CR).

(** A row as a hand may have written it: three numbers with separators
    between them, before the first and after the last. *)
Record loose_row : Type := mkLooseRow {
  lead : string;
  row_x : Z;
  sep1 : string;
  row_y : Z;
  sep2 : string;
  row_r : Z;
  trail : string;
}.

Definition loose_text (l : loose_row) : string :=
  lead l +:+ PyStr.str (row_x l) +:+ sep1 l +:+ PyStr.str (row_y l)
    +:+ sep2 l +:+ PyStr.str (row_r l) +:+ trail l.

Definition loose_ok (l : loose_row) : Prop :=
  all_chars inline_separator (lead l) = true /\
  all_chars inline_separator (sep1 l) = true /\
  all_chars inline_separator (sep2 l) = true /\
  all_chars inline_separator (trail l) = true /\
  sep1 l <> EmptyString /\ sep2 l <> EmptyString.

(** A line of a CSV file, without its line feed: a row, or any text that
    does not split into three parts. *)
Inductive file_line : Type :=
| Row (l : loose_row)
| Skipped (text : string).

Definition line_text (l : file_line) : string :=
  match l with
  | Row r => loose_text r
  | Skipped text => text
  end.

Definition line_ok (l : file_line) : Prop :=
  match l with
  | Row r => loose_ok r
  | Skipped text =>
      all_chars (fun c => negb (Ascii.eqb c PyStr.LF)) text = true /\
      all_chars (fun c => negb (Ascii.eqb c PyStr.CR)) text = true /\
      length (parts text) <> 3%nat
  end.

Definition line_circle (l : file_line) : option circle :=
  match l with
  | Row r => Some (row_x r, row_y r, row_r r)
  | Skipped _ => None
  end.

(** The file whose lines are [ls], each ended by a line feed. *)
Fixpoint file_text (ls : list file_line) : string :=
  match ls with
  | [] => EmptyString
  | l :: ls' => line_text l +:+ String PyStr.LF (file_text ls')
  end.

(** A file with a header, a padded row, an empty line and a plain row. *)
Definition example_lines : list file_line :=
  [Skipped "x,y,radius,note";
   Row (mkLooseRow "  " 10 " , " (-20) "   " 30 ",,");
   Skipped "";
   Row (mkLooseRow "" 1 "," 2 " " 3 "")].

(** [a <= b] in the order [sorted] uses. *)
Definition leb_true (a b : string) : Prop := String.leb a b = true.

(** The characters of [s] are all different from [c]. *)
Definition avoids (c : ascii) (s : string) : bool :=
  all_chars (fun d => negb (Ascii.eqb d c)) s.

(** [s] is made of dots only (so also when it is empty). *)
Definition only_dots (s : string) : bool :=
  all_chars (fun d => Ascii.eqb d ".") s.

(** The two options of the command line that take a value. *)
Inductive flag : Type :=
| Dataset
| Single.

Definition flag_text (f : flag) : string :=
  match f with
  | Dataset => "--dataset"
  | Single => "--single"
  end.

(** The argument list that spells out a sequence of options with their
    values. *)
Definition pairs_args (ps : list (flag * string)) : list string :=
  concat (map (fun p => [flag_text (fst p); snd p]) ps).

(** What a sequence of options sets, each one overriding the earlier ones
    of its kind. *)
Definition apply_pair (acc : string * option string) (p : flag * string)
  : string * option string :=
  match fst p with
  | Dataset => (snd p, snd acc)
  | Single => (fst acc, Some (snd p))
  end.

Definition apply_pairs (ps : list (flag * string))
  (acc : string * option string) : string * option string :=
  fold_left apply_pair ps acc.

(* ===================================================================== *)
(** * Properties                                                          *)
(* ===================================================================== *)

(** ** Strings and numbers *)

Section StringFacts.

Import PyStr.

Lemma app_nil (b : string) : EmptyString +:+ b = b.
Proof. reflexivity. Qed.

Lemma app_cons (x : ascii) (a b : string) :
  String x a +:+ b = String x (a +:+ b).
Proof. reflexivity. Qed.

Lemma app_assoc_s (a b c : string) : (a +:+ b) +:+ c = a +:+ (b +:+ c).
Proof.
  induction a as [|x a IH]; [reflexivity|].
  rewrite !app_cons. now rewrite IH.
Qed.

Lemma all_chars_app P (a b : string) :
  all_chars P (a +:+ b) = all_chars P a && all_chars P b.
Proof.
  induction a as [|x a IH]; [reflexivity|].
  rewrite app_cons. simpl. rewrite IH. now rewrite andb_assoc.
Qed.

Lemma plain_not_space c : plain c = true -> isspace c = false.
Proof. unfold plain. destruct (isspace c); simpl; congruence. Qed.

Lemma plain_not_comma c : plain c = true -> Ascii.eqb c "," = false.
Proof.
  unfold plain. destruct (isspace c), (Ascii.eqb c ","); simpl; congruence.
Qed.

Lemma plain_not_CR c : plain c = true -> Ascii.eqb c CR = false.
Proof.
  intros H. apply plain_not_space in H.
  destruct (Ascii.eqb_spec c CR) as [->|]; [discriminate H | reflexivity].
Qed.

Lemma plain_not_LF c : plain c = true -> Ascii.eqb c LF = false.
Proof.
  intros H. apply plain_not_space in H.
  destruct (Ascii.eqb_spec c LF) as [->|]; [discriminate H | reflexivity].
Qed.

Lemma digit_cases d : 0 <= d < 10 ->
  d = 0 \/ d = 1 \/ d = 2 \/ d = 3 \/ d = 4 \/ d = 5 \/ d = 6 \/ d = 7
  \/ d = 8 \/ d = 9.
Proof. lia. Qed.

Ltac each_digit d H :=
  destruct (digit_cases d H) as [->|[->|[->|[->|[->|[->|[->|[->|[->| ->]]]]]]]]].

Lemma digit_char_value d : 0 <= d < 10 -> digit_value (digit_char d) = Some d.
Proof. intros H. each_digit d H; reflexivity. Qed.

Lemma digit_char_plain d : 0 <= d < 10 -> plain (digit_char d) = true.
Proof. intros H. each_digit d H; reflexivity. Qed.

Lemma digit_char_not_underscore d :
  0 <= d < 10 -> Ascii.eqb (digit_char d) "_" = false.
Proof. intros H. each_digit d H; reflexivity. Qed.

Lemma digit_char_not_sign d :
  0 <= d < 10 ->
  Ascii.eqb (digit_char d) "+" = false /\ Ascii.eqb (digit_char d) "-" = false.
Proof. intros H. each_digit d H; split; reflexivity. Qed.

(** *** [str] writes plain, non-empty tokens *)

Lemma digits_plain fuel : forall n acc,
  0 <= n -> all_chars plain acc = true ->
  all_chars plain (digits fuel n acc) = true.
Proof.
  induction fuel as [|fuel IH]; intros n acc Hn Hacc; simpl; [exact Hacc|].
  destruct (Z.ltb_spec n 10).
  - simpl. rewrite digit_char_plain by lia. exact Hacc.
  - apply IH.
    + apply Z.div_pos; lia.
    + simpl. rewrite digit_char_plain; [exact Hacc|].
      apply Z.mod_pos_bound. lia.
Qed.

Lemma digits_head fuel : forall n acc,
  0 <= n ->
  exists d rest, 0 <= d < 10 /\ digits (S fuel) n acc = String (digit_char d) rest.
Proof.
  induction fuel as [|fuel IH]; intros n acc Hn.
  - simpl. destruct (Z.ltb_spec n 10).
    + exists n, acc. split; [lia | reflexivity].
    + exists (n mod 10), acc. split; [apply Z.mod_pos_bound; lia | reflexivity].
  - change (digits (S (S fuel)) n acc)
      with (if n <? 10 then String (digit_char n) acc
            else digits (S fuel) (n / 10) (String (digit_char (n mod 10)) acc)).
    destruct (Z.ltb_spec n 10).
    + exists n, acc. split; [lia | reflexivity].
    + apply IH. apply Z.div_pos; lia.
Qed.

(** Reading back the digits [digits] wrote, with enough fuel. *)
Lemma int_digits_digits fuel : forall n rest,
  0 <= n < 2 ^ Z.of_nat fuel ->
  exists m, forall a,
    int_digits (digits fuel n rest) false a = int_digits rest false (a * m + n).
Proof.
  induction fuel as [|fuel IH]; intros n rest Hn.
  - simpl in Hn. assert (n = 0) as -> by lia.
    exists 1. intros a. simpl. f_equal. lia.
  - simpl digits. destruct (Z.ltb_spec n 10).
    + exists 10. intros a. simpl.
      rewrite digit_char_not_underscore, digit_char_value by lia.
      f_equal. lia.
    + assert (Hdiv : 0 <= n / 10 < 2 ^ Z.of_nat fuel).
      { split; [apply Z.div_pos; lia|].
        apply Z.div_lt_upper_bound; [lia|].
        rewrite Nat2Z.inj_succ, Z.pow_succ_r in Hn by lia. lia. }
      destruct (IH (n / 10) (String (digit_char (n mod 10)) rest) Hdiv)
        as [m Hm].
      exists (10 * m). intros a. rewrite Hm. simpl.
      assert (Hmod : 0 <= n mod 10 < 10) by (apply Z.mod_pos_bound; lia).
      rewrite digit_char_not_underscore, digit_char_value by exact Hmod.
      f_equal. pose proof (Z.div_mod n 10 ltac:(lia)). lia.
Qed.

Lemma log2_fuel n : 0 <= n -> 0 <= n < 2 ^ Z.of_nat (S (Z.to_nat (Z.log2 n))).
Proof.
  intros Hn. split; [exact Hn|].
  rewrite Nat2Z.inj_succ, Z2Nat.id by apply Z.log2_nonneg.
  destruct (Z.eq_dec n 0) as [->|Hne]; [reflexivity|].
  apply Z.log2_spec. lia.
Qed.

Lemma int_digits_str_nonneg n : 0 <= n ->
  int_digits (digits (S (Z.to_nat (Z.log2 n))) n EmptyString) false 0 = Some n.
Proof.
  intros Hn.
  destruct (int_digits_digits _ n EmptyString (log2_fuel n Hn)) as [m Hm].
  rewrite Hm. cbn [int_digits]. f_equal; lia.
Qed.

Lemma int_of_digits n : 0 <= n ->
  int (digits (S (Z.to_nat (Z.log2 n))) n EmptyString) = Some n.
Proof.
  intros Hn. pose proof (int_digits_str_nonneg n Hn) as Hd.
  destruct (digits_head (Z.to_nat (Z.log2 n)) n EmptyString Hn)
    as (d & rest & Hdr & Heq).
  rewrite Heq in *. unfold int.
  destruct (digit_char_not_sign d Hdr) as [-> ->].
  rewrite digit_char_not_underscore by exact Hdr.
  now rewrite Hd.
Qed.

Lemma int_str z : int (str z) = Some z.
Proof.
  unfold str. destruct (Z.ltb_spec z 0) as [Hneg|Hpos].
  - pose proof (int_digits_str_nonneg (- z) ltac:(lia)) as Hd.
    destruct (digits_head (Z.to_nat (Z.log2 (- z))) (- z) EmptyString
                ltac:(lia)) as (d & rest & Hdr & Heq).
    rewrite Heq in *. unfold int.
    change (Ascii.eqb "-" "+") with false. change (Ascii.eqb "-" "-") with true.
    cbv iota beta.
    rewrite digit_char_not_underscore by exact Hdr.
    rewrite Hd. f_equal. lia.
  - now apply int_of_digits.
Qed.

Lemma str_plain z : all_chars plain (str z) = true.
Proof.
  unfold str. destruct (Z.ltb_spec z 0).
  - cbn [all_chars]. change (plain "-") with true. cbn [andb].
    apply digits_plain; [lia | reflexivity].
  - apply digits_plain; [lia | reflexivity].
Qed.

Lemma str_nonempty z : str z <> EmptyString.
Proof.
  unfold str. destruct (Z.ltb_spec z 0); [discriminate|].
  destruct (digits_head (Z.to_nat (Z.log2 z)) z EmptyString ltac:(lia))
    as (d & rest & _ & ->).
  discriminate.
Qed.

End StringFacts.

(** ** CSV persistence *)

Section CsvFacts.

Import PyStr.


Lemma lstrip_plain c s : plain c = true -> lstrip (String c s) = String c s.
Proof. intros H. simpl. now rewrite (plain_not_space c H). Qed.

Lemma rstrip_plain s : all_chars plain s = true -> rstrip s = s.
Proof.
  induction s as [|c s IH]; [reflexivity|].
  simpl. intros [Hc Hs]%andb_prop. rewrite (IH Hs).
  destruct s; [now rewrite (plain_not_space c Hc) | reflexivity].
Qed.

Lemma rstrip_plain_LF s :
  all_chars plain s = true -> s <> EmptyString ->
  rstrip (s +:+ String LF EmptyString) = s.
Proof.
  induction s as [|c s IH]; [congruence|].
  intros [Hc Hs]%andb_prop _. rewrite app_cons.
  destruct s as [|c' s].
  - rewrite app_nil. simpl. now rewrite (plain_not_space c Hc).
  - cbn [rstrip]. rewrite (IH Hs) by discriminate. reflexivity.
Qed.

Lemma rstrip_app a b :
  rstrip b <> EmptyString -> rstrip (a +:+ b) = a +:+ rstrip b.
Proof.
  intros Hb. induction a as [|c a IH]; [reflexivity|].
  rewrite !app_cons. cbn [rstrip]. rewrite IH.
  destruct (a +:+ rstrip b) eqn:E; [|reflexivity].
  destruct a; [rewrite app_nil in E; congruence | discriminate E].
Qed.

Lemma rstrip_app_eq a b t :
  rstrip b = t -> t <> EmptyString -> rstrip (a +:+ b) = a +:+ t.
Proof. intros <- H. now apply rstrip_app. Qed.

Lemma app_nonempty_r (a t : string) : t <> EmptyString -> a +:+ t <> EmptyString.
Proof. destruct a; [now rewrite app_nil | discriminate]. Qed.

Lemma replace_app old new a b :
  replace old new (a +:+ b) = replace old new a +:+ replace old new b.
Proof.
  induction a as [|c a IH]; [reflexivity|].
  rewrite app_cons. simpl. now rewrite IH.
Qed.

Lemma replace_plain s :
  all_chars plain s = true -> replace "," " " s = s.
Proof.
  induction s as [|c s IH]; [reflexivity|].
  simpl. intros [Hc Hs]%andb_prop.
  now rewrite (plain_not_comma c Hc), (IH Hs).
Qed.

Lemma split_plain s :
  all_chars plain s = true -> s <> EmptyString -> split s = [s].
Proof.
  induction s as [|c s IH]; [congruence|].
  intros [Hc Hs]%andb_prop _. cbn [split].
  rewrite (plain_not_space c Hc).
  destruct s as [|c' s]; [reflexivity|].
  assert (Hc' : plain c' = true) by (simpl in Hs; now apply andb_prop in Hs).
  rewrite (plain_not_space c' Hc'). now rewrite (IH Hs) by discriminate.
Qed.

Lemma split_plain_space s rest :
  all_chars plain s = true -> s <> EmptyString ->
  split (s +:+ String " " rest) = s :: split rest.
Proof.
  induction s as [|c s IH]; [congruence|].
  intros [Hc Hs]%andb_prop _. rewrite app_cons. cbn [split].
  rewrite (plain_not_space c Hc).
  destruct s as [|c' s].
  - rewrite app_nil. reflexivity.
  - assert (Hc' : plain c' = true) by (simpl in Hs; now apply andb_prop in Hs).
    rewrite app_cons. rewrite (plain_not_space c' Hc').
    rewrite <- app_cons. now rewrite (IH Hs) by discriminate.
Qed.

Lemma split_plain_sep s rest :
  all_chars plain s = true -> s <> EmptyString ->
  split (s +:+ " " +:+ rest) = s :: split rest.
Proof. apply split_plain_space. Qed.

Lemma replace_comma : replace "," " " "," = " "%string.
Proof. reflexivity. Qed.

Lemma plain_avoids (c0 : ascii) s :
  plain c0 = false -> all_chars plain s = true ->
  all_chars (fun c => negb (Ascii.eqb c c0)) s = true.
Proof.
  intros H0. induction s as [|a s IH]; [reflexivity|].
  simpl. intros [Ha Hs]%andb_prop. rewrite (IH Hs), andb_true_r.
  destruct (Ascii.eqb_spec a c0) as [->|]; [congruence | reflexivity].
Qed.

Lemma row_avoids (c0 : ascii) c :
  plain c0 = false -> Ascii.eqb "," c0 = false ->
  all_chars (fun c => negb (Ascii.eqb c c0)) (row c) = true.
Proof.
  intros H0 Hc. destruct c as [[x y] r]. unfold row.
  rewrite !all_chars_app.
  rewrite (plain_avoids c0 (str x)), (plain_avoids c0 (str y)),
    (plain_avoids c0 (str r)) by (try apply str_plain; assumption).
  cbn [all_chars]. now rewrite Hc.
Qed.

Lemma universal_newlines_no_CR s :
  all_chars (fun c => negb (Ascii.eqb c CR)) s = true ->
  universal_newlines false s = s.
Proof.
  induction s as [|c s IH]; [reflexivity|].
  simpl. intros [Hc Hs]%andb_prop.
  apply negb_true_iff in Hc. rewrite Hc, (IH Hs).
  now destruct (Ascii.eqb_spec c LF) as [->|].
Qed.

Lemma lines_app_LF s rest :
  all_chars (fun c => negb (Ascii.eqb c LF)) s = true ->
  lines (s +:+ String LF rest) = (s +:+ String LF EmptyString) :: lines rest.
Proof.
  induction s as [|c s IH]; [reflexivity|].
  intros [Hc Hs]%andb_prop. rewrite !app_cons. cbn [lines].
  apply negb_true_iff in Hc. now rewrite Hc, (IH Hs).
Qed.

Lemma csv_line_row c : csv_line c = row c +:+ String LF EmptyString.
Proof.
  destruct c as [[x y] r]. unfold csv_line, row.
  now rewrite !app_assoc_s.
Qed.

Lemma read_line_csv_line c : read_line (csv_line c) = inr (Some c).
Proof.
  destruct c as [[x y] r]. unfold read_line, csv_line, strip.
  pose proof (str_plain x) as Px. pose proof (str_nonempty x) as Nx.
  pose proof (str_plain y) as Py. pose proof (str_nonempty y) as Ny.
  pose proof (str_plain r) as Pr. pose proof (str_nonempty r) as Nr.
  assert (Hl : lstrip (str x +:+ "," +:+ str y +:+ "," +:+ str r
                       +:+ String LF EmptyString)
               = str x +:+ "," +:+ str y +:+ "," +:+ str r
                 +:+ String LF EmptyString).
  { destruct (str x) as [|c s]; [congruence|].
    rewrite app_cons. apply lstrip_plain.
    simpl in Px. now apply andb_prop in Px. }
  rewrite Hl.
  assert (Hr : rstrip (str x +:+ "," +:+ str y +:+ "," +:+ str r
                       +:+ String LF EmptyString)
               = str x +:+ "," +:+ str y +:+ "," +:+ str r).
  { repeat (apply rstrip_app_eq; [|repeat apply app_nonempty_r; assumption]).
    now apply rstrip_plain_LF. }
  rewrite Hr.
  rewrite !replace_app, replace_comma.
  rewrite (replace_plain (str x)), (replace_plain (str y)),
    (replace_plain (str r)) by assumption.
  rewrite !split_plain_sep by assumption.
  rewrite split_plain by assumption.
  now rewrite !int_str.
Qed.

Lemma csv_line_no_CR c :
  all_chars (fun c => negb (Ascii.eqb c CR)) (csv_line c) = true.
Proof.
  rewrite csv_line_row, all_chars_app, row_avoids; reflexivity.
Qed.

Lemma csv_text_no_CR cs :
  all_chars (fun c => negb (Ascii.eqb c CR)) (csv_text cs) = true.
Proof.
  induction cs as [|c cs IH]; [reflexivity|].
  simpl. now rewrite all_chars_app, csv_line_no_CR, IH.
Qed.

Lemma lines_csv_text cs : lines (csv_text cs) = map csv_line cs.
Proof.
  induction cs as [|c cs IH]; [reflexivity|].
  simpl. rewrite csv_line_row, app_assoc_s. rewrite app_cons, app_nil.
  rewrite lines_app_LF, IH; [reflexivity|].
  apply row_avoids; reflexivity.
Qed.

Lemma read_lines_csv cs : forall acc,
  read_lines (map csv_line cs) acc = inr (acc ++ cs).
Proof.
  induction cs as [|c cs IH]; intros acc; simpl.
  - now rewrite app_nil_r.
  - rewrite read_line_csv_line, IH. now rewrite <- app_assoc.
Qed.

(** Reading back what [write_csv] wrote, at the level of file contents. *)
Lemma read_csv_value_written (fs : filesystem) path cs :
  read_csv_value (<[path := csv_text cs]> fs) path = inr cs.
Proof.
  unfold read_csv_value. rewrite lookup_insert_eq.
  rewrite universal_newlines_no_CR by apply csv_text_no_CR.
  now rewrite lines_csv_text, read_lines_csv.
Qed.

End CsvFacts.

(* ===================================================================== *)
(** ** The annotation session                                             *)
(* ===================================================================== *)

Section SessionFacts.

Lemma circles_of_insert st l :
  (<[saved st := l]> (store st) : heap) !!! saved st = l.
Proof. apply lookup_total_insert_eq. Qed.

Lemma on_mouse_saved kind x y st : saved (on_mouse kind x y st) = saved st.
Proof.
  unfold on_mouse.
  destruct (kind =? EVENT_LBUTTONDOWN); [now destruct (drawing st)|].
  now destruct ((kind =? EVENT_MOUSEMOVE) && drawing st).
Qed.

Lemma on_mouse_quit_all kind x y st :
  quit_all (on_mouse kind x y st) = quit_all st.
Proof.
  unfold on_mouse.
  destruct (kind =? EVENT_LBUTTONDOWN); [now destruct (drawing st)|].
  now destruct ((kind =? EVENT_MOUSEMOVE) && drawing st).
Qed.

Lemma on_mouse_frame kind x y st (l : loc) :
  l <> saved st -> store (on_mouse kind x y st) !! l = store st !! l.
Proof.
  intros Hl. unfold on_mouse.
  destruct (kind =? EVENT_LBUTTONDOWN).
  - destruct (drawing st); simpl; [|reflexivity].
    now rewrite lookup_insert_ne.
  - now destruct ((kind =? EVENT_MOUSEMOVE) && drawing st).
Qed.

Lemma on_key_saved code st : saved (control_state (on_key code st)) = saved st.
Proof.
  unfold on_key.
  destruct (Z.land code 255 =? KEY_ESC); [now destruct (drawing st)|].
  destruct ((Z.land code 255 =? KEY_U) && negb (is_empty (circles_of st)));
    now destruct (Z.land code 255 =? KEY_SPACE).
Qed.

Lemma on_key_frame code st (l : loc) :
  l <> saved st -> store (control_state (on_key code st)) !! l = store st !! l.
Proof.
  intros Hl. unfold on_key.
  destruct (Z.land code 255 =? KEY_ESC); [now destruct (drawing st)|].
  destruct ((Z.land code 255 =? KEY_U) && negb (is_empty (circles_of st)));
    destruct (Z.land code 255 =? KEY_SPACE); simpl;
    try reflexivity; now rewrite lookup_insert_ne.
Qed.

(** What every step of the session preserves, the loop preserves. *)
Lemma interact_invariant (P : session -> Prop) :
  (forall kind x y st, P st -> P (on_mouse kind x y st)) ->
  (forall code st, P st -> P (control_state (on_key code st))) ->
  forall evs st, P st -> P (outcome_state (interact evs st)).
Proof.
  intros Hmouse Hkey. induction evs as [|e evs IH]; intros st Hst.
  - exact Hst.
  - destruct e as [kind x y|code]; simpl.
    + apply IH, Hmouse, Hst.
    + pose proof (Hkey code st Hst) as Hk.
      destruct (on_key code st); simpl in Hk; [now apply IH | exact Hk].
Qed.

Lemma interact_app pre rest st :
  interact (pre ++ rest) st =
  match interact pre st with
  | Waiting st1 => interact rest st1
  | Finished st1 remaining => Finished st1 (remaining ++ rest)
  end.
Proof.
  revert st. induction pre as [|e pre IH]; intros st; [reflexivity|].
  destruct e as [kind x y|code]; simpl; [apply IH|].
  destruct (on_key code st); [apply IH | reflexivity].
Qed.

(** *** Quiet events and commits *)

Lemma quiet_step e st :
  quiet e = true ->
  exists st1, interact [e] st = Waiting st1 /\
    store st1 = store st /\ saved st1 = saved st /\ center st1 = center st /\
    drawing st1 = drawing st /\ quit_all st1 = quit_all st.
Proof.
  intros Hq. destruct e as [kind x y|code]; simpl in *.
  - apply negb_true_iff in Hq. unfold on_mouse. rewrite Hq.
    destruct ((kind =? EVENT_MOUSEMOVE) && drawing st); simpl; eexists;
      repeat split.
  - apply andb_prop in Hq as [[H1 H2]%andb_prop H3].
    apply negb_true_iff in H1, H2, H3.
    unfold on_key. rewrite H1, H2, H3. simpl.
    eexists; repeat split.
Qed.

Lemma quiet_run evs : forall st,
  forallb quiet evs = true ->
  exists st1, interact evs st = Waiting st1 /\
    store st1 = store st /\ saved st1 = saved st /\ center st1 = center st /\
    drawing st1 = drawing st /\ quit_all st1 = quit_all st.
Proof.
  induction evs as [|e evs IH]; intros st Hq.
  - exists st. simpl. repeat split.
  - simpl in Hq. apply andb_prop in Hq as [He Hevs].
    destruct (quiet_step e st He) as (st1 & Hrun & Hs & Ha & Hc & Hd1 & Hqa).
    destruct (IH st1 Hevs) as (st2 & Hrun2 & Hs2 & Ha2 & Hc2 & Hd2 & Hqa2).
    exists st2. change (e :: evs) with ([e] ++ evs).
    rewrite interact_app, Hrun, Hrun2.
    repeat split; congruence.
Qed.

Lemma commit_run c st :
  well_formed c -> drawing st = false ->
  exists st1, interact (commit_events c) st = Waiting st1 /\
    drawing st1 = false /\ saved st1 = saved st /\
    quit_all st1 = quit_all st /\
    circles_of st1 = circles_of st ++ [commit_circle c].
Proof.
  intros [Hbetween Hafter] Hd. unfold commit_events.
  cbn [interact]. unfold on_mouse at 1.
  change (EVENT_LBUTTONDOWN =? EVENT_LBUTTONDOWN) with true. cbv iota.
  rewrite Hd. cbn [negb].
  set (st0 := mkSession _ _ _ _ _ _).
  destruct (quiet_run (between c) st0 Hbetween)
    as (st1 & Hrun & Hs & Ha & Hc & Hd1 & Hqa).
  rewrite interact_app, Hrun. cbn [interact]. unfold on_mouse.
  change (EVENT_LBUTTONDOWN =? EVENT_LBUTTONDOWN) with true. cbv iota.
  rewrite Hd1. cbn [negb drawing st0].
  set (st2 := mkSession _ _ _ _ _ _).
  destruct (quiet_run (after c) st2 Hafter)
    as (st3 & Hrun3 & Hs3 & Ha3 & Hc3 & Hd3 & Hqa3).
  exists st3. split; [exact Hrun3|].
  rewrite Hd3, Ha3, Hqa3. unfold circles_of at 1. rewrite Hs3, Ha3.
  cbn [drawing saved quit_all store st2].
  rewrite lookup_total_insert_eq.
  repeat split; try assumption.
  unfold circles_of, commit_circle. rewrite Hs, Ha, Hc. reflexivity.
Qed.

Lemma commits_run cs : forall st,
  Forall well_formed cs -> drawing st = false ->
  exists st1, interact (commits_events cs) st = Waiting st1 /\
    drawing st1 = false /\ saved st1 = saved st /\
    quit_all st1 = quit_all st /\
    circles_of st1 = circles_of st ++ map commit_circle cs.
Proof.
  induction cs as [|c cs IH]; intros st Hwf Hd.
  - exists st. simpl. rewrite app_nil_r. repeat split; exact Hd.
  - inversion Hwf as [|? ? Hc Hcs]; subst.
    destruct (commit_run c st Hc Hd) as (st1 & Hrun & Hd1 & Ha1 & Hq1 & Hl1).
    destruct (IH st1 Hcs Hd1) as (st2 & Hrun2 & Hd2 & Ha2 & Hq2 & Hl2).
    exists st2. unfold commits_events in *. cbn [map concat].
    rewrite interact_app, Hrun, Hrun2.
    repeat split; try congruence.
    rewrite Hl2, Hl1. now rewrite <- app_assoc.
Qed.

(** The finish key ends the loop in every state, so a recording that
    holds one is always read to an end. *)
Lemma interact_finishes evs : forall st,
  (exists code, In (Key code) evs /\ Z.land code 255 = KEY_SPACE) ->
  exists st' rest, interact evs st = Finished st' rest.
Proof.
  induction evs as [|e evs IH]; intros st (code & Hin & Hk);
    [destruct Hin|].
  destruct e as [kind x y|code0]; simpl.
  - destruct Hin as [Heq|Hin]; [discriminate Heq|]. apply IH. eauto.
  - destruct (on_key code0 st) as [st1|st1] eqn:Hstep; [|eauto].
    destruct Hin as [Heq|Hin]; [|apply IH; eauto].
    injection Heq as ->. unfold on_key in Hstep. rewrite Hk in Hstep.
    change (KEY_SPACE =? KEY_ESC) with false in Hstep.
    change (KEY_SPACE =? KEY_SPACE) with true in Hstep.
    cbv iota in Hstep. discriminate Hstep.
Qed.

(** *** The loop with its drawing *)

(** Unless the drawing stops it, the loop ends as [interact] says. *)
Lemma run_loop_interact evs : forall at_top st o,
  run_loop at_top evs st = Ran o -> o = interact evs st.
Proof.
  induction evs as [|e evs IH]; intros at_top st o; cbn [run_loop interact];
    destruct (at_top && negb (renders st)); try discriminate.
  - now intros [= <-].
  - destruct e as [kind x y|code]; [apply IH|].
    destruct (on_key code st); [apply IH | now intros [= <-]].
Qed.

Lemma run_loop_invariant (P : session -> Prop) :
  (forall kind x y st, P st -> P (on_mouse kind x y st)) ->
  (forall code st, P st -> P (control_state (on_key code st))) ->
  forall evs at_top st, P st -> P (run_state (run_loop at_top evs st)).
Proof.
  intros Hmouse Hkey. induction evs as [|e evs IH]; intros at_top st Hst;
    cbn [run_loop]; destruct (at_top && negb (renders st)); try exact Hst.
  destruct e as [kind x y|code].
  - apply IH, Hmouse, Hst.
  - pose proof (Hkey code st Hst) as Hk.
    destruct (on_key code st); simpl in Hk; [now apply IH | exact Hk].
Qed.

(** Where the loop stands after the events [pre]: at the top of its body
    after a key, inside [cv2.waitKey] after a mouse event. *)
Lemma run_loop_app pre : forall rest at_top st st1,
  run_loop at_top pre st = Ran (Waiting st1) ->
  exists at_top',
    run_loop at_top (pre ++ rest) st = run_loop at_top' rest st1 /\
    (at_top' = true -> renders st1 = true).
Proof.
  induction pre as [|e pre IH]; intros rest at_top st st1.
  - cbn [run_loop app]. destruct (at_top && negb (renders st)) eqn:Hc;
      [discriminate|]. intros [= <-]. exists at_top. split; [reflexivity|].
    intros ->. simpl in Hc. now apply negb_false_iff in Hc.
  - cbn [run_loop app]. destruct (at_top && negb (renders st));
      [discriminate|].
    destruct e as [kind x y|code]; [apply IH|].
    destruct (on_key code st); [apply IH | discriminate].
Qed.

Lemma run_loop_top_again rest st :
  renders st = true -> run_loop false rest st = run_loop true rest st.
Proof.
  intros Hr. destruct rest as [|e rest]; cbn [run_loop]; now rewrite Hr.
Qed.

(** After events that ran through, the loop goes on as from the top of its
    body. *)
Lemma run_loop_app_top pre rest at_top st st1 :
  run_loop at_top pre st = Ran (Waiting st1) ->
  (run_loop at_top (pre ++ rest) st = run_loop false rest st1).
Proof.
  intros Hrun. destruct (run_loop_app pre rest at_top st st1 Hrun)
    as ([|] & Heq & Hr); [|exact Heq].
  rewrite Heq. symmetry. now apply run_loop_top_again, Hr.
Qed.

End SessionFacts.

Section Radius.

(** The integer nearest to the square root of [n]. *)
Lemma nearest_exists n :
  0 <= n -> nearest_to_sqrt n ((Z.sqrt (4 * n) + 1) / 2).
Proof.
  intros Hn. unfold nearest_to_sqrt.
  pose proof (Z.sqrt_spec (4 * n) ltac:(lia)) as [Hlo Hhi].
  pose proof (Z.sqrt_nonneg (4 * n)) as Hs.
  set (s := Z.sqrt (4 * n)) in *.
  set (r := (s + 1) / 2).
  assert (Hr : 2 * r <= s + 1 < 2 * r + 2).
  { unfold r. pose proof (Z.div_mod (s + 1) 2 ltac:(lia)).
    pose proof (Z.mod_pos_bound (s + 1) 2 ltac:(lia)). lia. }
  split; [lia|]. split.
  - nia.
  - intros Hpos.
    assert (Hodd : (2 * r - 1) ^ 2 = 4 * (r * r - r) + 1) by ring.
    assert (Hle : (2 * r - 1) ^ 2 <= 4 * n) by nia.
    lia.
Qed.

Lemma nearest_unique n r1 r2 :
  nearest_to_sqrt n r1 -> nearest_to_sqrt n r2 -> r1 = r2.
Proof.
  unfold nearest_to_sqrt. intros (H1 & U1 & L1) (H2 & U2 & L2).
  destruct (Z.lt_trichotomy r1 r2) as [Hlt|[Heq|Hgt]]; [|exact Heq|].
  - specialize (L2 ltac:(lia)). nia.
  - specialize (L1 ltac:(lia)). nia.
Qed.

(** Rounding a binary64 mantissa that lies strictly between two odd
    multiples of half the scale. *)
Lemma round_between m f r :
  0 < f -> (2 * r - 1) * 2 ^ (f - 1) < m < (2 * r + 1) * 2 ^ (f - 1) ->
  PyFloat.round (m, f) = r.
Proof.
  intros Hf Hm. unfold PyFloat.round.
  replace (0 <? f) with true by (symmetry; apply Z.ltb_lt; lia).
  assert (Hpow : 2 ^ f = 2 * 2 ^ (f - 1)).
  { replace f with (Z.succ (f - 1)) at 1 by lia.
    apply Z.pow_succ_r. lia. }
  assert (HP : 0 < 2 ^ (f - 1)) by (apply Z.pow_pos_nonneg; lia).
  rewrite Hpow. set (P := 2 ^ (f - 1)) in *.
  pose proof (Z.div_mod m (2 * P) ltac:(lia)) as Hdm.
  pose proof (Z.mod_pos_bound m (2 * P) ltac:(lia)) as Hmod.
  remember (m / (2 * P)) as q eqn:Eq. remember (m mod (2 * P)) as t eqn:Et.
  clear Eq Et.
  destruct (Z_lt_le_dec m (2 * r * P)) as [Hlow|Hhigh].
  - assert (Hq : q = r - 1) by nia. rewrite Hq in *.
    assert (P < t) by nia.
    replace (2 * t <? 2 * P) with false by (symmetry; apply Z.ltb_ge; lia).
    replace (2 * P <? 2 * t) with true by (symmetry; apply Z.ltb_lt; lia).
    lia.
  - assert (Hq : q = r) by nia. rewrite Hq in *.
    assert (t < P) by nia.
    replace (2 * t <? 2 * P) with true by (symmetry; apply Z.ltb_lt; lia).
    reflexivity.
Qed.

Lemma pow4 f : 0 <= f -> 4 ^ f = 2 ^ f * 2 ^ f.
Proof.
  intros Hf. change 4 with (2 ^ 2). rewrite <- Z.pow_mul_r by lia.
  rewrite <- Z.pow_add_r by lia. f_equal. lia.
Qed.

(** Below [2^49] the binary64 rounding of the square root does not move
    the nearest integer. *)
Lemma round_hypot_small dx dy :
  dx * dx + dy * dy < 2 ^ 49 ->
  nearest_to_sqrt (dx * dx + dy * dy) (round_hypot dx dy).
Proof.
  intros Hbound. set (n := dx * dx + dy * dy) in *.
  assert (Hn : 0 <= n) by (unfold n; nia).
  pose proof (nearest_exists n Hn) as Hnear.
  set (r := (Z.sqrt (4 * n) + 1) / 2) in *.
  enough (round_hypot dx dy = r) as -> by exact Hnear.
  destruct Hnear as (Hr0 & Hup & Hlow).
  unfold round_hypot, PyFloat.hypot. fold n.
  (* the scale *)
  pose proof (Z.sqrt_spec n Hn) as [Hs1 Hs2].
  pose proof (Z.sqrt_nonneg n) as Hs0.
  set (s := Z.sqrt n) in *.
  assert (Hs25 : s < 2 ^ 25) by (change (2 ^ 49) with 562949953421312 in Hbound;
                                 change (2 ^ 25) with 33554432; nia).
  assert (Hlog : 0 <= Z.log2 s <= 24).
  { split; [apply Z.log2_nonneg|].
    destruct (Z.eq_dec s 0) as [->|Hne]; [now cbn|].
    apply Z.lt_succ_r. apply Z.log2_lt_pow2; [lia | exact Hs25]. }
  set (f := 52 - Z.log2 s).
  assert (Hf : 28 <= f <= 52) by (unfold f; lia).
  replace (0 <=? f) with true by (symmetry; apply Z.leb_le; lia).
  apply round_between; [lia|].
  assert (Hpow : 2 ^ f = 2 * 2 ^ (f - 1)).
  { replace f with (Z.succ (f - 1)) at 1 by lia.
    apply Z.pow_succ_r. lia. }
  assert (HP : 2 ^ 27 <= 2 ^ (f - 1)) by (apply Z.pow_le_mono_r; lia).
  rewrite (pow4 f) by lia. rewrite Hpow.
  set (P := 2 ^ (f - 1)) in *. change (2 ^ 27) with 134217728 in HP.
  change (2 ^ 25) with 33554432 in Hs25.
  (* the mantissa *)
  assert (HN : 0 <= n * (2 * P * (2 * P))) by nia.
  pose proof (Z.sqrt_spec _ HN) as [Hm1 Hm2].
  pose proof (Z.sqrt_nonneg (n * (2 * P * (2 * P)))) as Hm0.
  set (m := Z.sqrt (n * (2 * P * (2 * P)))) in *.
  (* the nearest integer is small *)
  assert (Hr : r <= 33554432 + 1) by nia.
  (* parity: 4n is a multiple of four, the odd squares are not *)
  assert (Hup' : 4 * n + 1 <= (2 * r + 1) ^ 2).
  { assert ((2 * r + 1) ^ 2 = 4 * (r * r + r) + 1) by ring. lia. }
  assert (Hlow' : 0 < r -> (2 * r - 1) ^ 2 + 3 <= 4 * n).
  { intros Hpos. specialize (Hlow Hpos).
    assert ((2 * r - 1) ^ 2 = 4 * (r * r - r) + 1) by ring. lia. }
  split.
  - destruct (Z.eq_dec r 0) as [Hz|Hnz].
    + rewrite Hz. destruct (m <? _); lia.
    + specialize (Hlow' ltac:(lia)).
      assert (HA : ((2 * r - 1) * P) * ((2 * r - 1) * P) + 3 * P * P
                   <= n * (2 * P * (2 * P))) by nia.
      assert (HmA : (2 * r - 1) * P <= m) by nia.
      destruct (Z.ltb_spec m (n * (2 * P * (2 * P)) - m * m)); [lia|].
      nia.
  - assert (HB : n * (2 * P * (2 * P)) + P * P
                 <= ((2 * r + 1) * P) * ((2 * r + 1) * P)) by nia.
    assert (HmB : m < (2 * r + 1) * P) by nia.
    destruct (Z.ltb_spec m (n * (2 * P * (2 * P)) - m * m)); [|lia].
    nia.
Qed.

Lemma round_nonneg m f : 0 <= m -> 0 <= PyFloat.round (m, f).
Proof.
  intros Hm. unfold PyFloat.round.
  destruct (0 <? f) eqn:Hf.
  - assert (Hp : 0 < 2 ^ f) by (apply Z.pow_pos_nonneg; lia).
    assert (Hq : 0 <= m / 2 ^ f) by (apply Z.div_pos; lia).
    destruct (2 * (m mod 2 ^ f) <? 2 ^ f); [exact Hq|].
    destruct (2 ^ f <? 2 * (m mod 2 ^ f)); [lia|].
    destruct (Z.even (m / 2 ^ f)); lia.
  - apply Z.mul_nonneg_nonneg; [exact Hm | apply Z.pow_nonneg; lia].
Qed.

Lemma round_hypot_nonneg dx dy : 0 <= round_hypot dx dy.
Proof.
  unfold round_hypot, PyFloat.hypot.
  set (n := dx * dx + dy * dy). set (f := 52 - Z.log2 (Z.sqrt n)).
  destruct (Z.leb_spec 0 f) as [Hf|Hf].
  - apply round_nonneg.
    pose proof (Z.sqrt_nonneg (n * 4 ^ f)). destruct (_ <? _); lia.
  - apply round_nonneg.
    assert (0 <= Z.sqrt n / 2 ^ (- f)).
    { apply Z.div_pos; [apply Z.sqrt_nonneg | apply Z.pow_pos_nonneg; lia]. }
    destruct (_ || _); lia.
Qed.

Lemma round_hypot_same_point : round_hypot 0 0 = 0.
Proof. reflexivity. Qed.

Lemma nearest_rounds n r :
  0 <= n -> nearest_to_sqrt n r ->
  (Rabs (IZR r - sqrt (IZR n)) < 1 / 2)%R.
Proof.
  intros Hn (Hr & Hup & Hlow).
  assert (Hs : (0 <= sqrt (IZR n))%R) by apply sqrt_pos.
  assert (Hsq : (sqrt (IZR n) * sqrt (IZR n) = IZR n)%R).
  { apply sqrt_sqrt. now apply IZR_le. }
  apply IZR_le in Hr as Hr'.
  apply IZR_lt in Hup.
  rewrite mult_IZR, Z.pow_2_r, mult_IZR, plus_IZR, mult_IZR in Hup.
  apply Rabs_def1.
  - destruct (Z.eq_dec r 0) as [->|Hne]; [lra|].
    assert (H0 : 0 < r) by lia. apply Hlow in H0. apply IZR_lt in H0.
    rewrite mult_IZR, Z.pow_2_r, mult_IZR, minus_IZR, mult_IZR in H0.
    assert (1 <= IZR r)%R by (apply IZR_le; lia).
    nra.
  - nra.
Qed.

Lemma round_hypot_rounds dx dy :
  dx * dx + dy * dy < 2 ^ 49 -> rounds_distance dx dy (round_hypot dx dy).
Proof.
  intros Hb. unfold rounds_distance.
  rewrite <- !mult_IZR, <- plus_IZR.
  apply nearest_rounds; [nia | now apply round_hypot_small].
Qed.

End Radius.

Section SessionClaims.

Lemma Forall_removelast {A} (P : A -> Prop) (l : list A) :
  Forall P l -> Forall P (removelast l).
Proof.
  induction 1 as [|x l Hx Hl IH]; [constructor|].
  simpl. destruct l; [constructor|]. constructor; assumption.
Qed.

Lemma circles_of_pop st : circles_of (pop st) = removelast (circles_of st).
Proof. unfold pop, circles_of at 1. simpl. apply lookup_total_insert_eq. Qed.

Lemma initial_session_circles (h : heap) initial :
  circles_of (initial_session h initial) = h !!! initial.
Proof. unfold initial_session, circles_of. simpl. apply lookup_total_insert_eq. Qed.

Lemma initial_session_quit_all (h : heap) initial :
  quit_all (initial_session h initial) = false.
Proof. reflexivity. Qed.

Lemma initial_session_fresh (h : heap) initial :
  h !! saved (initial_session h initial) = None.
Proof.
  unfold initial_session. simpl.
  apply not_elem_of_dom, is_fresh.
Qed.

(** The radii the session holds: the live one is never negative, and a
    stored circle is one of the initial ones or has a radius that is not
    negative. *)
Lemma radii_invariant (h : heap) initial evs :
  let st := outcome_state (interact evs (initial_session h initial)) in
  0 <= preview_radius st /\
  Forall (fun c => c ∈ (h !!! initial : list circle) \/ 0 <= radius c)
    (circles_of st).
Proof.
  apply (interact_invariant
           (fun st => 0 <= preview_radius st /\
              Forall (fun c => c ∈ (h !!! initial : list circle)
                               \/ 0 <= radius c) (circles_of st))).
  - intros kind x y st [Hp Hall]. unfold on_mouse.
    destruct (kind =? EVENT_LBUTTONDOWN).
    + destruct (drawing st); simpl.
      * split; [exact Hp|]. unfold circles_of at 1. simpl.
        rewrite lookup_total_insert_eq. apply Forall_app. split; [exact Hall|].
        constructor; [|constructor]. right. apply round_hypot_nonneg.
      * split; [lia | exact Hall].
    + destruct ((kind =? EVENT_MOUSEMOVE) && drawing st); simpl.
      * split; [apply round_hypot_nonneg | exact Hall].
      * split; assumption.
  - intros code st [Hp Hall]. unfold on_key.
    assert (Hpop : 0 <= preview_radius (pop st) /\
              Forall (fun c => c ∈ (h !!! initial : list circle)
                               \/ 0 <= radius c) (circles_of (pop st))).
    { split; [exact Hp|]. rewrite circles_of_pop.
      now apply Forall_removelast. }
    destruct (Z.land code 255 =? KEY_ESC).
    + destruct (drawing st); simpl; split; assumption.
    + destruct ((Z.land code 255 =? KEY_U) && negb (is_empty (circles_of st)));
        destruct (Z.land code 255 =? KEY_SPACE); simpl;
        try exact Hpop; split; assumption.
  - split; [unfold initial_session; simpl; lia|].
    rewrite initial_session_circles. apply Forall_forall. intros c Hc. now left.
Qed.

(** C6.  A press in the Drawing state commits the circle whose centre is
    the fixed centre and whose radius is [round(hypot(dx, dy))], computed
    in binary64 as the program does, for the offset [(dx, dy)] from the
    centre to the pointer: it is never negative, it is [0] when the pointer
    is on the centre, and as long as [dx*dx + dy*dy] is below [2^49] (so for
    offsets below sixteen million) it is the integer nearest to the
    Euclidean distance.  In every state the session reaches, the live
    radius is not negative and every circle the session committed has a
    radius that is not negative. *)
Theorem commit_radius_is_rounded_distance :
  (forall st x y,
     drawing st = true ->
     let dx := x - fst (center st) in
     let dy := y - snd (center st) in
     let st' := on_mouse EVENT_LBUTTONDOWN x y st in
     circles_of st' =
       circles_of st
       ++ [(fst (center st), snd (center st),
            PyFloat.round (PyFloat.hypot dx dy))]
     /\ drawing st' = false
     /\ 0 <= PyFloat.round (PyFloat.hypot dx dy)
     /\ ((x, y) = center st -> PyFloat.round (PyFloat.hypot dx dy) = 0)
     /\ (dx * dx + dy * dy < 2 ^ 49 ->
         rounds_distance dx dy (PyFloat.round (PyFloat.hypot dx dy))
         /\ nearest_to_sqrt (dx * dx + dy * dy)
              (PyFloat.round (PyFloat.hypot dx dy))))
  /\ (forall (h : heap) initial evs,
        let st := outcome_state (interact evs (initial_session h initial)) in
        0 <= preview_radius st /\
        Forall (fun c => c ∈ (h !!! initial : list circle) \/ 0 <= radius c)
          (circles_of st))
  /\ PyFloat.round (PyFloat.hypot 36012001 6001) = 36012002.
Proof.
  split; [|split].
  - intros st x y Hd dx dy st'. subst st'. unfold on_mouse.
    change (EVENT_LBUTTONDOWN =? EVENT_LBUTTONDOWN) with true. cbv iota.
    rewrite Hd. cbn [negb]. unfold circles_of at 1. cbn [store saved drawing].
    rewrite lookup_total_insert_eq.
    fold (round_hypot dx dy).
    split; [reflexivity|]. split; [reflexivity|].
    split; [apply round_hypot_nonneg|]. split.
    + intros Heq. subst dx dy. rewrite <- Heq. cbn [fst snd].
      rewrite !Z.sub_diag. reflexivity.
    + intros Hb. split; [now apply round_hypot_rounds
                        | now apply round_hypot_small].
  - intros h initial evs. apply radii_invariant.
  - vm_compute. reflexivity.
Qed.

Lemma commit_radius_is_rounded_distance_witness :
  circles_of (on_mouse EVENT_LBUTTONDOWN 13 14 drawing_example)
  = [(1, 2, 3); (10, 10, 5)].
Proof.
  exact (proj1 (proj1 commit_radius_is_rounded_distance
                  drawing_example 13 14 eq_refl)).
Defined.

(** C3 as stated fails: the finish key in the Drawing state ends the
    session. *)
Lemma finish_while_drawing_not_ignored :
  drawing drawing_example = true /\
  on_key KEY_SPACE drawing_example <> Continue drawing_example /\
  interact [Key KEY_SPACE; Key KEY_ESC] drawing_example
  = Finished drawing_example [Key KEY_ESC].
Proof. repeat split. discriminate. Qed.

(** C3, amended.  The finish key in the Drawing state ends the session:
    the loop breaks at once, the remaining events are left unread, the
    session variables and the committed circles are as they were (so the
    in-progress circle is not committed) and [quit_all] is not set. *)
Theorem finish_while_drawing_ends_session code st rest :
  Z.land code 255 = KEY_SPACE ->
  drawing st = true ->
  on_key code st = Break st /\
  interact (Key code :: rest) st = Finished st rest.
Proof.
  intros Hk Hd. assert (Hb : on_key code st = Break st).
  { unfold on_key. rewrite Hk. reflexivity. }
  split; [exact Hb|]. simpl. now rewrite Hb.
Qed.

Lemma finish_while_drawing_ends_session_witness :
  on_key KEY_SPACE drawing_example = Break drawing_example /\
  interact [Key KEY_SPACE; Key KEY_ESC] drawing_example
  = Finished drawing_example [Key KEY_ESC].
Proof.
  exact (finish_while_drawing_ends_session KEY_SPACE drawing_example
           [Key KEY_ESC] eq_refl eq_refl).
Defined.

(** C9.  The undo key in the Drawing state removes the last committed
    circle (nothing when there is none), and the session stays in Drawing
    with the same centre and live radius. *)
Theorem undo_while_drawing code st :
  Z.land code 255 = KEY_U ->
  drawing st = true ->
  exists st',
    on_key code st = Continue st' /\
    circles_of st' = removelast (circles_of st) /\
    drawing st' = true /\ center st' = center st /\
    preview_radius st' = preview_radius st /\
    saved st' = saved st /\ quit_all st' = quit_all st.
Proof.
  intros Hk Hd. unfold on_key. rewrite Hk.
  change (KEY_U =? KEY_ESC) with false. change (KEY_U =? KEY_U) with true.
  change (KEY_U =? KEY_SPACE) with false. cbv iota. cbn [andb].
  destruct (circles_of st) as [|c l] eqn:El; cbn [is_empty negb].
  - exists st. now rewrite El.
  - exists (pop st). rewrite circles_of_pop, El. repeat split. exact Hd.
Qed.

Lemma undo_while_drawing_witness :
  exists st',
    on_key KEY_U drawing_example = Continue st' /\
    circles_of st' = removelast (circles_of drawing_example) /\
    drawing st' = true /\ center st' = center drawing_example /\
    preview_radius st' = preview_radius drawing_example /\
    saved st' = saved drawing_example /\
    quit_all st' = quit_all drawing_example.
Proof. exact (undo_while_drawing KEY_U drawing_example eq_refl eq_refl). Defined.

(** C5.  From an Idle state, N commits (the [cs] and then [c]) followed by
    the undo key leave the store the first N-1 commits leave, which is the
    store at the start followed by their circles; the undo key on an empty
    store changes nothing and the loop goes on. *)
Theorem undo_after_commits st cs c code :
  drawing st = false ->
  Forall well_formed (cs ++ [c]) ->
  Z.land code 255 = KEY_U ->
  (exists st1 st2,
     interact (commits_events (cs ++ [c]) ++ [Key code]) st = Waiting st1 /\
     interact (commits_events cs) st = Waiting st2 /\
     circles_of st1 = circles_of st2 /\
     circles_of st1 = circles_of st ++ map commit_circle cs /\
     drawing st1 = false)
  /\ (forall st0, circles_of st0 = [] -> on_key code st0 = Continue st0).
Proof.
  intros Hd Hwf Hk. split.
  - destruct (commits_run (cs ++ [c]) st Hwf Hd)
      as (sa & Hra & Hda & Haa & Hqa & Hla).
    apply Forall_app in Hwf as [Hwf _].
    destruct (commits_run cs st Hwf Hd) as (sb & Hrb & Hdb & Hab & Hqb & Hlb).
    rewrite interact_app, Hra. cbn [interact].
    unfold on_key. rewrite Hk.
    change (KEY_U =? KEY_ESC) with false. change (KEY_U =? KEY_U) with true.
    change (KEY_U =? KEY_SPACE) with false. cbv iota. cbn [andb].
    rewrite Hla, map_app. cbn [map]. rewrite app_assoc.
    destruct ((circles_of st ++ map commit_circle cs) ++ [commit_circle c])
      as [|x l] eqn:El.
    { now apply app_eq_nil in El as [_ ?]. }
    cbn [is_empty negb].
    exists (pop sa), sb. split; [reflexivity|]. split; [exact Hrb|].
    assert (Hpop : circles_of (pop sa) = circles_of st ++ map commit_circle cs).
    { rewrite circles_of_pop, Hla, map_app. cbn [map]. rewrite app_assoc.
      apply removelast_last. }
    rewrite Hpop, Hlb. repeat split. exact Hda.
  - intros st0 H0. unfold on_key. rewrite Hk, H0. reflexivity.
Qed.

End SessionClaims.

(* ===================================================================== *)
(** ** The driver                                                         *)
(* ===================================================================== *)

Section DriverFacts.

Variable imread : string -> bool.
Variable listdir : string -> option (list string).

Lemma annotate_image_undecodable path initial w :
  imread path = false ->
  annotate_image imread path initial w =
  Returned (fresh (dom (objects w)), false)
    (set_objects (<[fresh (dom (objects w)) := []]> (objects w))
       (add_line ("Cannot open image: " +:+ path) w)).
Proof. intros H. unfold annotate_image. rewrite H. reflexivity. Qed.

Lemma annotate_image_decodable path initial w :
  imread path = true ->
  annotate_image imread path initial w =
  match run_loop true (events w) (initial_session (objects w) initial) with
  | Ran (Finished st rest) =>
      Returned (saved st, quit_all st)
        (mkWorld (files w) (store st) (stdout w) rest)
  | Ran (Waiting st) => Pending (mkWorld (files w) (store st) (stdout w) [])
  | Crashed st rest =>
      Raised CvError (mkWorld (files w) (store st) (stdout w) rest)
  end.
Proof. intros H. unfold annotate_image. rewrite H. reflexivity. Qed.

(** [annotate_and_save] spelled out. *)
Lemma annotate_and_save_unfold d name w :
  annotate_and_save imread d name w =
  match read_csv (csv_path_of d name) w with
  | Returned existing wa =>
      match annotate_image imread (OsPath.join d name) existing
              (add_line (annotating_message name) wa) with
      | Returned (circles, q) wb =>
          Returned q
            (add_line ("Saved "
                       +:+ PyStr.str (Z.of_nat (length (objects wb !!! circles)))
                       +:+ " circles to " +:+ csv_path_of d name)
               (set_files (<[csv_path_of d name :=
                               csv_text (objects wb !!! circles)]> (files wb))
                  wb))
      | Raised e wb => Raised e wb
      | Pending wb => Pending wb
      end
  | Raised e wa => Raised e wa
  | Pending wa => Pending wa
  end.
Proof.
  unfold annotate_and_save, bind.
  destruct (read_csv (csv_path_of d name) w) as [existing wa|e wa|wa];
    try reflexivity.
  unfold print at 1. cbv beta iota.
  destruct (annotate_image imread (OsPath.join d name) existing
              (add_line (annotating_message name) wa))
    as [[circles q] wb|e wb|wb]; reflexivity.
Qed.

Lemma read_csv_returns path w l :
  read_csv_value (files w) path = inr l ->
  read_csv path w =
  Returned (fresh (dom (objects w)))
    (set_objects (<[fresh (dom (objects w)) := l]> (objects w)) w).
Proof. intros H. unfold read_csv. rewrite H. reflexivity. Qed.

Lemma read_csv_inv path w a wa :
  read_csv path w = Returned a wa ->
  files wa = files w /\ stdout wa = stdout w /\ events wa = events w /\
  a = fresh (dom (objects w)) /\
  exists l, read_csv_value (files w) path = inr l /\
            objects wa = <[a := l]> (objects w).
Proof.
  unfold read_csv. destruct (read_csv_value (files w) path) as [e|l];
    [discriminate|].
  simpl. intros [= <- <-]. simpl. repeat split. now exists l.
Qed.

(** *** [quit_all] *)

Lemma interact_quit_all evs : forall st st' rest,
  quit_all st = false ->
  interact evs st = Finished st' rest ->
  (quit_all st' = true <->
   exists pre code st1,
     evs = pre ++ Key code :: rest /\ interact pre st = Waiting st1 /\
     drawing st1 = false /\ Z.land code 255 = KEY_ESC).
Proof.
  induction evs as [|e evs IH]; intros st st' rest Hq Hrun; [discriminate|].
  destruct e as [kind x y|code0]; simpl in Hrun.
  - assert (Hq' : quit_all (on_mouse kind x y st) = false)
      by now rewrite on_mouse_quit_all.
    rewrite (IH _ _ _ Hq' Hrun). split.
    + intros (pre & code & st1 & -> & Hpre & Hd & Hk).
      exists (Mouse kind x y :: pre), code, st1. now repeat split.
    + intros (pre & code & st1 & Heq & Hpre & Hd & Hk).
      destruct pre as [|e pre]; [discriminate Heq|].
      injection Heq as <- ->. simpl in Hpre.
      exists pre, code, st1. now repeat split.
  - unfold on_key in Hrun.
    destruct (Z.land code0 255 =? KEY_ESC) eqn:Hesc.
    + destruct (drawing st) eqn:Hd0.
      * (* cancel while drawing: the loop goes on *)
        set (st2 := mkSession _ _ _ false _ _) in Hrun.
        rewrite (IH st2 _ _ Hq Hrun). split.
        -- intros (pre & code & st1 & -> & Hpre & Hd & Hk).
           exists (Key code0 :: pre), code, st1. repeat split; try assumption.
           simpl. unfold on_key. now rewrite Hesc, Hd0.
        -- intros (pre & code & st1 & Heq & Hpre & Hd & Hk).
           destruct pre as [|e pre].
           { simpl in Hpre. injection Hpre as <-. congruence. }
           injection Heq as <- ->. simpl in Hpre. unfold on_key in Hpre.
           rewrite Hesc, Hd0 in Hpre.
           exists pre, code, st1. now repeat split.
      * (* cancel while idle: the loop ends with quit_all *)
        injection Hrun as <- <-. simpl. split; [|reflexivity].
        intros _. exists [], code0, st. repeat split; [exact Hd0|].
        now apply Z.eqb_eq.
    + set (st2 := if (Z.land code0 255 =? KEY_U)
                      && negb (is_empty (circles_of st))
                  then pop st else st) in Hrun.
      assert (Hq2 : quit_all st2 = false).
      { unfold st2. now destruct ((Z.land code0 255 =? KEY_U)
                                  && negb (is_empty (circles_of st))). }
      destruct (Z.land code0 255 =? KEY_SPACE) eqn:Hsp.
      * (* finish: the loop ends without quit_all *)
        injection Hrun as <- <-. rewrite Hq2. split; [discriminate|].
        intros (pre & code & st1 & Heq & Hpre & Hd & Hk).
        destruct pre as [|e pre].
        { injection Heq as ->. apply Z.eqb_neq in Hesc. congruence. }
        injection Heq as _ Heq.
        apply (f_equal (@length event)) in Heq.
        rewrite length_app in Heq. simpl in Heq. lia.
      * rewrite (IH st2 _ _ Hq2 Hrun). split.
        -- intros (pre & code & st1 & -> & Hpre & Hd & Hk).
           exists (Key code0 :: pre), code, st1. repeat split; try assumption.
           simpl. unfold on_key. rewrite Hesc, Hsp. exact Hpre.
        -- intros (pre & code & st1 & Heq & Hpre & Hd & Hk).
           destruct pre as [|e pre].
           { injection Heq as -> ->. apply Z.eqb_neq in Hesc. congruence. }
           injection Heq as <- ->. simpl in Hpre. unfold on_key in Hpre.
           rewrite Hesc, Hsp in Hpre.
           exists pre, code, st1. now repeat split.
Qed.

Lemma run_loop_prefix pre : forall more at_top st o,
  run_loop at_top (pre ++ more) st = Ran o ->
  exists o', run_loop at_top pre st = Ran o'.
Proof.
  induction pre as [|e pre IH]; intros more at_top st o.
  - cbn [app run_loop].
    assert (Hfirst : run_loop at_top more st = Ran o ->
                     at_top && negb (renders st) = false).
    { destruct more; cbn [run_loop];
        destruct (at_top && negb (renders st)); (discriminate || reflexivity). }
    intros H. rewrite (Hfirst H). eauto.
  - cbn [app run_loop]. destruct (at_top && negb (renders st));
      [discriminate|].
    destruct e as [kind x y|code]; [apply IH|].
    destruct (on_key code st); [apply IH | eauto].
Qed.

Lemma run_loop_quit_all evs at_top st st' rest :
  quit_all st = false ->
  run_loop at_top evs st = Ran (Finished st' rest) ->
  (quit_all st' = true <->
   exists pre code st1,
     evs = pre ++ Key code :: rest /\
     run_loop at_top pre st = Ran (Waiting st1) /\
     drawing st1 = false /\ Z.land code 255 = KEY_ESC).
Proof.
  intros Hq Hrun.
  pose proof (run_loop_interact _ _ _ _ Hrun) as Hint. symmetry in Hint.
  rewrite (interact_quit_all _ _ _ _ Hq Hint). split.
  - intros (pre & code & st1 & Hev & Hpre & Hd & Hk).
    exists pre, code, st1. repeat split; try assumption.
    rewrite Hev in Hrun.
    destruct (run_loop_prefix _ _ _ _ _ Hrun) as [o' Ho'].
    rewrite Ho'. f_equal.
    rewrite (run_loop_interact _ _ _ _ Ho'). exact Hpre.
  - intros (pre & code & st1 & Hev & Hpre & Hd & Hk).
    exists pre, code, st1. repeat split; try assumption.
    symmetry. now apply (run_loop_interact _ at_top).
Qed.

End DriverFacts.

Section DriverClaims.

Variable imread : string -> bool.
Variable listdir : string -> option (list string).

(** C7.  Round trip: for a store of K circles, [write_csv] writes one line
    per circle in store order (nothing for K = 0, so the file is empty), and
    [read_csv] on the same path returns a list with the same triples in the
    same order. *)
Theorem write_csv_read_csv_roundtrip (w : world) path circles cs :
  objects w !! circles = Some cs ->
  exists w1 back w2,
    write_csv path circles w = Returned tt w1 /\
    files w1 !! path = Some (csv_text cs) /\
    (cs = [] -> files w1 !! path = Some EmptyString) /\
    read_csv path w1 = Returned back w2 /\
    objects w2 !! back = Some cs.
Proof.
  intros Hcs.
  assert (Htot : objects w !!! circles = cs)
    by (rewrite lookup_total_alt, Hcs; reflexivity).
  eexists _, _, _. split; [reflexivity|].
  cbn [files set_files]. rewrite Htot.
  split; [apply lookup_insert_eq|].
  split; [intros ->; apply lookup_insert_eq|].
  split.
  - apply read_csv_returns. cbn [files set_files].
    apply read_csv_value_written.
  - cbn [objects set_objects set_files]. apply lookup_insert_eq.
Qed.

(** C10.  [annotate_image] works on a copy: the list object passed as
    [initial] holds the same circles afterwards, whether the call returns
    or is still waiting for input. *)
Theorem annotate_image_keeps_initial path initial w :
  is_Some (objects w !! initial) ->
  objects (final_world (annotate_image imread path initial w)) !! initial
  = objects w !! initial.
Proof.
  intros Hin.
  assert (Hne : initial <> fresh (dom (objects w))).
  { intros Heq. apply (is_fresh (dom (objects w))).
    rewrite <- Heq. now apply elem_of_dom. }
  destruct (imread path) eqn:Him.
  - rewrite annotate_image_decodable by exact Him.
    pose proof (run_loop_invariant
      (fun st => saved st = fresh (dom (objects w))
                 /\ store st !! initial = objects w !! initial)) as Hinv.
    specialize (Hinv
      ltac:(intros kind x y st [Hs Hl]; split;
            [now rewrite on_mouse_saved
            |rewrite on_mouse_frame; [exact Hl | congruence]])
      ltac:(intros code st [Hs Hl]; split;
            [now rewrite on_key_saved
            |rewrite on_key_frame; [exact Hl | congruence]])
      (events w) true (initial_session (objects w) initial)).
    destruct Hinv as [_ Hl].
    { split; [reflexivity|]. unfold initial_session. simpl.
      now rewrite lookup_insert_ne. }
    destruct (run_loop true (events w) (initial_session (objects w) initial))
      as [[st rest|st]|st rest]; exact Hl.
  - rewrite annotate_image_undecodable by exact Him. simpl.
    now rewrite lookup_insert_ne.
Qed.

(** C1, amended.  When the image fails to decode, [annotate_image] returns
    a new empty list and [quit_all = False] without reading any input, and
    [annotate_and_save] then writes that empty result: the CSV of the image
    is created or truncated to an empty file, and the saving message is
    printed. *)
Theorem undecodable_image_overwrites_csv d name w existing :
  imread (OsPath.join d name) = false ->
  read_csv_value (files w) (csv_path_of d name) = inr existing ->
  (forall initial,
     exists a w1,
       annotate_image imread (OsPath.join d name) initial w
       = Returned (a, false) w1 /\
       objects w1 !! a = Some [] /\ files w1 = files w /\
       events w1 = events w) /\
  exists w',
    annotate_and_save imread d name w = Returned false w' /\
    files w' = <[csv_path_of d name := EmptyString]> (files w) /\
    events w' = events w /\
    stdout w' = stdout w ++
      [annotating_message name;
       "Cannot open image: " +:+ OsPath.join d name;
       "Saved 0 circles to " +:+ csv_path_of d name].
Proof.
  intros Him Hread. split.
  - intros initial. eexists _, _.
    split; [now apply annotate_image_undecodable|].
    simpl. split; [apply lookup_insert_eq | now split].
  - rewrite annotate_and_save_unfold.
    rewrite (read_csv_returns _ _ _ Hread).
    rewrite annotate_image_undecodable by exact Him.
    eexists. split; [reflexivity|].
    cbn [objects files events stdout set_objects set_files add_line].
    rewrite lookup_total_insert_eq. cbn [csv_text length].
    repeat split. now rewrite <- !app_assoc.
Qed.

(** C4.  When the image decoded and the session reads the cancel key in
    the Idle state, [annotate_and_save] returns [quit_all = True]: the
    circles of the store at that moment are written to the CSV of the image,
    the events after the key are left unread, and the loop over the images
    stops there.  [annotate_and_save] returns [quit_all = True] in no other
    case, and whatever it returns, the circles the session returned are in
    the CSV.  The cancel key in the Drawing state only leaves Drawing: the
    loop goes on with the store and [quit_all] as they were. *)
Theorem quit_all_iff_cancel_while_idle d name others w :
  (forall existing wa pre code rest st,
     read_csv (csv_path_of d name) w = Returned existing wa ->
     imread (OsPath.join d name) = true ->
     events w = pre ++ Key code :: rest ->
     run_loop true pre (initial_session (objects wa) existing)
     = Ran (Waiting st) ->
     drawing st = false ->
     Z.land code 255 = KEY_ESC ->
     exists w1,
       annotate_and_save imread d name w = Returned true w1 /\
       files w1 = <[csv_path_of d name := csv_text (circles_of st)]> (files w)
       /\ events w1 = rest /\
       for_images imread d (name :: others) w = Returned tt w1) /\
  (forall q w1,
     annotate_and_save imread d name w = Returned q w1 ->
     exists existing wa circles wb,
       read_csv (csv_path_of d name) w = Returned existing wa /\
       annotate_image imread (OsPath.join d name) existing
         (add_line (annotating_message name) wa) = Returned (circles, q) wb /\
       (q = true <->
        imread (OsPath.join d name) = true /\
        exists pre code st,
          events w = pre ++ Key code :: events wb /\
          run_loop true pre (initial_session (objects wa) existing)
          = Ran (Waiting st) /\
          drawing st = false /\ Z.land code 255 = KEY_ESC) /\
       files w1 !! csv_path_of d name
       = Some (csv_text (objects wb !!! circles)) /\
       (q = true ->
        for_images imread d (name :: others) w = Returned tt w1)) /\
  (forall code st,
     Z.land code 255 = KEY_ESC -> drawing st = true ->
     on_key code st =
     Continue (mkSession (store st) (saved st) (center st) false
                 (preview_radius st) (quit_all st))).
Proof.
  split; [|split].
  - intros existing wa pre code rest st Hread Him Hev Hpre Hd Hk.
    assert (Hsave : exists w1,
      annotate_and_save imread d name w = Returned true w1 /\
      files w1 = <[csv_path_of d name := csv_text (circles_of st)]> (files w)
      /\ events w1 = rest).
    { rewrite annotate_and_save_unfold, Hread.
      apply read_csv_inv in Hread as (Hf & _ & He & _).
      rewrite annotate_image_decodable by exact Him.
      cbn [events objects add_line]. rewrite He, Hev.
      rewrite (run_loop_app_top _ _ _ _ _ Hpre). cbn [run_loop andb].
      assert (Hstep : on_key code st
                      = Break (mkSession (store st) (saved st) (center st)
                                 (drawing st) (preview_radius st) true)).
      { unfold on_key. rewrite Hk, Hd. reflexivity. }
      rewrite Hstep. eexists. split; [reflexivity|].
      cbn [files events set_files add_line objects saved store].
      rewrite Hf. now split. }
    destruct Hsave as (w1 & Hrun & Hfiles & Hevs).
    exists w1. repeat split; try assumption.
    cbn [for_images]. unfold bind. now rewrite Hrun.
  - intros q w1 Hrun. pose proof Hrun as Hrun0.
    rewrite annotate_and_save_unfold in Hrun.
    destruct (read_csv (csv_path_of d name) w) as [existing wa|e wa|wa]
      eqn:Hread; try discriminate.
    destruct (annotate_image imread (OsPath.join d name) existing
                (add_line (annotating_message name) wa))
      as [[circles q'] wb|e wb|wb] eqn:Hann; try discriminate.
    injection Hrun as -> <-.
    exists existing, wa, circles, wb. split; [reflexivity|].
    split; [exact Hann|]. split; [|split].
    + apply read_csv_inv in Hread as (_ & _ & Hev & _).
      destruct (imread (OsPath.join d name)) eqn:Him.
      * rewrite annotate_image_decodable in Hann by exact Him.
        cbn [events objects add_line] in Hann. rewrite Hev in Hann.
        destruct (run_loop true (events w)
                    (initial_session (objects wa) existing))
          as [[st rest|st]|st rest] eqn:Hloop; try discriminate.
        injection Hann as <- <- <-. cbn [events].
        rewrite (run_loop_quit_all _ _ _ _ _
                   (initial_session_quit_all (objects wa) existing) Hloop).
        split; [now intros H; split | now intros [_ H]].
      * rewrite annotate_image_undecodable in Hann by exact Him.
        injection Hann as <- <- <-. split; [discriminate | now intros [? _]].
    + cbn [files set_files add_line]. apply lookup_insert_eq.
    + intros ->. cbn [for_images]. unfold bind. rewrite Hrun0. reflexivity.
  - intros code st Hk Hd. unfold on_key. rewrite Hk, Hd. reflexivity.
Qed.

Lemma existsb_eqb_false name (images : list string) :
  name ∉ images -> existsb (String.eqb name) images = false.
Proof.
  intros Hnot. destruct (existsb (String.eqb name) images) eqn:E;
    [|reflexivity].
  apply existsb_exists in E as (x & Hin & Heq).
  apply String.eqb_eq in Heq as <-. exfalso. apply Hnot.
  now apply list_elem_of_In.
Qed.

(** [parse_args] always returns, and touches nothing but the output. *)
Lemma parse_args_from_frame n : forall args d s h w,
  (length args <= n)%nat ->
  exists r w0,
    parse_args_from args d s h w = Returned r w0 /\
    files w0 = files w /\ objects w0 = objects w /\ events w0 = events w.
Proof.
  induction n as [|n IH]; intros args d s h w Hlen.
  - destruct args; [|simpl in Hlen; lia]. now eexists _, _.
  - destruct args as [|arg rest]; [now eexists _, _|].
    simpl in Hlen. cbn [parse_args_from].
    assert (Hunknown : exists r w0,
      (do _ <- print ("Unknown argument: " +:+ arg);
       parse_args_from rest d s true) w = Returned r w0 /\
      files w0 = files w /\ objects w0 = objects w /\ events w0 = events w).
    { unfold bind, print.
      apply (IH rest d s true (add_line ("Unknown argument: " +:+ arg) w)).
      lia. }
    destruct (String.eqb arg "-h" || String.eqb arg "--help");
      [apply IH; lia|].
    destruct rest as [|value rest']; [exact Hunknown|].
    simpl in Hlen.
    destruct (String.eqb arg "--dataset"); [apply IH; lia|].
    destruct (String.eqb arg "--single"); [apply IH; lia|].
    exact Hunknown.
Qed.

Lemma parse_args_frame args w r w0 :
  parse_args args w = Returned r w0 ->
  files w0 = files w /\ objects w0 = objects w /\ events w0 = events w.
Proof.
  intros H.
  destruct (parse_args_from_frame (length args) args DATASET_DIR_DEFAULT
              None false w (le_n _)) as (r' & w0' & Hrun & Hf).
  unfold parse_args in H. rewrite Hrun in H. now injection H as <- <-.
Qed.

(** C8.  In single-image mode with a name that is not among the images of
    the folder, [main] returns normally and writes no file; unless help was
    asked for, the one line it prints after parsing says what was not
    found. *)
Theorem single_missing_image argv0 args w d name help w0 :
  parse_args args w = Returned (d, Some name, help) w0 ->
  name <> EmptyString ->
  (forall names, listdir d = Some names -> name ∉ list_images names) ->
  exists w',
    main imread listdir argv0 args w = Returned tt w' /\
    files w' = files w /\ objects w' = objects w /\ events w' = events w /\
    (help = false ->
     stdout w' = stdout w0 ++
       [match listdir d with
        | None => "Dataset folder not found: " +:+ d
        | Some names =>
            match list_images names with
            | [] => "No images found in " +:+ d
            | _ :: _ => name +:+ " not found in " +:+ d
            end
        end]).
Proof.
  intros Hparse Hname Hmissing.
  destruct (parse_args_frame _ _ _ _ Hparse) as (Hf & Ho & He).
  unfold main, bind. rewrite Hparse.
  destruct help.
  { eexists. split; [reflexivity|]. cbn. repeat split; try assumption.
    discriminate. }
  destruct (listdir d) as [names|] eqn:Hdir.
  2:{ eexists. split; [reflexivity|]. cbn. now repeat split. }
  specialize (Hmissing names eq_refl).
  destruct (list_images names) as [|img images] eqn:Himgs.
  { eexists. split; [reflexivity|]. cbn. now repeat split. }
  assert (Htruthy : truthy (Some name) = true)
    by (destruct name; [congruence | reflexivity]).
  rewrite Htruthy. cbn [target_name andb].
  rewrite (existsb_eqb_false _ _ Hmissing). cbn [negb].
  eexists. split; [reflexivity|]. cbn. now repeat split.
Qed.

End DriverClaims.

(* ===================================================================== *)
(** ** The claims at concrete inputs                                      *)
(* ===================================================================== *)

Lemma read_line_wrong_arity line :
  length (PyStr.split (PyStr.replace "," " " (PyStr.strip line))) <> 3%nat ->
  read_line line = inr None.
Proof.
  unfold read_line.
  destruct (PyStr.split _) as [|a [|b [|c [|e l]]]]; simpl; congruence.
Qed.

(** A line that does not split into three parts is skipped, and the lines
    after it are read as if it were absent. *)
Lemma read_lines_skips_wrong_arity line ls acc :
  length (PyStr.split (PyStr.replace "," " " (PyStr.strip line))) <> 3%nat ->
  read_lines (line :: ls) acc = read_lines ls acc.
Proof. intros H. simpl. now rewrite read_line_wrong_arity. Qed.

(** C2.  On a file whose first line is the header [x,y,r], [read_csv]
    raises [ValueError] instead of skipping the line: the line splits into
    three parts, so it passes the arity check, and [int] rejects the first
    of them. *)
Theorem read_csv_raises_on_non_integer_row :
  let w := mkWorld (<["d/a.csv" := "x,y,r" +:+ nl +:+ "1,2,3" +:+ nl]> ∅)
             ∅ [] [] in
  read_csv "d/a.csv" w = Raised ValueError w.
Proof. vm_compute. reflexivity. Qed.

Lemma write_csv_read_csv_roundtrip_witness :
  let w := mkWorld ∅ (<[0%nat := [(100, 100, 50); (-3, 0, 12)]]> ∅) [] [] in
  exists w1 back w2,
    write_csv "d/a.csv" 0%nat w = Returned tt w1 /\
    files w1 !! "d/a.csv"%string
    = Some (csv_text [(100, 100, 50); (-3, 0, 12)]) /\
    ([(100, 100, 50); (-3, 0, 12)] = [] ->
     files w1 !! "d/a.csv"%string = Some EmptyString) /\
    read_csv "d/a.csv" w1 = Returned back w2 /\
    objects w2 !! back = Some [(100, 100, 50); (-3, 0, 12)].
Proof.
  exact (write_csv_read_csv_roundtrip
           (mkWorld ∅ (<[0%nat := [(100, 100, 50); (-3, 0, 12)]]> ∅) [] [])
           "d/a.csv" 0%nat [(100, 100, 50); (-3, 0, 12)] eq_refl).
Defined.

Lemma annotate_image_keeps_initial_witness :
  let w := mkWorld ∅ (<[0%nat := [(1, 2, 3)]]> ∅) []
             [Key KEY_U; Mouse EVENT_LBUTTONDOWN 5 5;
              Mouse EVENT_LBUTTONDOWN 5 9; Key KEY_SPACE] in
  objects (final_world (annotate_image (fun _ => true) "d/a.png" 0%nat w))
    !! 0%nat
  = Some [(1, 2, 3)].
Proof.
  exact (annotate_image_keeps_initial (fun _ => true) "d/a.png" 0%nat
           (mkWorld ∅ (<[0%nat := [(1, 2, 3)]]> ∅) []
              [Key KEY_U; Mouse EVENT_LBUTTONDOWN 5 5;
               Mouse EVENT_LBUTTONDOWN 5 9; Key KEY_SPACE])
           ltac:(exists [(1, 2, 3)]; reflexivity)).
Defined.

(** C1 as stated fails: the image does not decode, and the CSV that was on
    file for it is replaced by an empty file. *)
Lemma undecodable_image_csv_is_rewritten :
  let w := example_world [] in
  files w !! "d/a.csv"%string = Some (csv_text [(1, 2, 3); (4, 5, 6)]) /\
  files (final_world (annotate_and_save (fun _ => false) "d" "a.png" w))
    !! "d/a.csv"%string = Some EmptyString /\
  files (final_world (annotate_and_save (fun _ => false) "d" "a.png" w))
    !! "d/a.csv"%string <> files w !! "d/a.csv"%string.
Proof.
  vm_compute. repeat split. discriminate.
Qed.

Lemma undecodable_image_overwrites_csv_witness :
  exists w',
    annotate_and_save (fun _ => false) "d" "a.png" (example_world [])
    = Returned false w' /\
    files w' = <["d/a.csv" := EmptyString]> (files (example_world [])).
Proof.
  destruct (undecodable_image_overwrites_csv (fun _ => false) "d" "a.png"
              (example_world []) [(1, 2, 3); (4, 5, 6)] eq_refl
              ltac:(vm_compute; reflexivity))
    as (_ & w' & Hrun & Hfiles & _).
  exists w'. split; [exact Hrun | exact Hfiles].
Defined.

Lemma quit_all_iff_cancel_while_idle_witness :
  exists w1,
    annotate_and_save (fun _ => true) "d" "a.png"
      (example_world [Key KEY_U; Key KEY_ESC; Key KEY_SPACE])
    = Returned true w1 /\
    files w1 = <["d/a.csv" := csv_text [(1, 2, 3)]]>
                 (files (example_world [])) /\
    events w1 = [Key KEY_SPACE] /\
    for_images (fun _ => true) "d" ["a.png"; "b.PNG"]%string
      (example_world [Key KEY_U; Key KEY_ESC; Key KEY_SPACE])
    = Returned tt w1.
Proof.
  exact (proj1 (quit_all_iff_cancel_while_idle (fun _ => true) "d" "a.png"
                  ["b.PNG"%string]
                  (example_world [Key KEY_U; Key KEY_ESC; Key KEY_SPACE]))
           _ _ [Key KEY_U] KEY_ESC [Key KEY_SPACE] _
           eq_refl eq_refl eq_refl eq_refl eq_refl eq_refl).
Defined.

Lemma single_missing_image_witness :
  exists w',
    main (fun _ => true) example_listdir "annotate.py"
      ["--dataset"; "d"; "--single"; "missing.png"]%string (example_world [])
    = Returned tt w' /\
    files w' = files (example_world []) /\
    stdout w' = ["missing.png not found in d"%string].
Proof.
  destruct (single_missing_image (fun _ => true) example_listdir "annotate.py"
              ["--dataset"; "d"; "--single"; "missing.png"]%string
              (example_world []) "d" "missing.png" false (example_world [])
              eq_refl ltac:(discriminate)
              ltac:(intros names [= <-]; vm_compute;
                    intros Hin; apply list_elem_of_In in Hin;
                    simpl in Hin; intuition discriminate))
    as (w' & Hrun & Hfiles & _ & _ & Hout).
  exists w'. split; [exact Hrun|]. split; [exact Hfiles | exact (Hout eq_refl)].
Defined.

(** C8 as stated fails: with the empty name, which is not among the images,
    [main] does not stop at a not-found message but annotates the whole
    folder and writes its CSVs. *)
Lemma single_empty_name_runs_folder :
  let w := example_world [Key KEY_SPACE; Key KEY_SPACE] in
  let args := ["--dataset"; "d"; "--single"; ""]%string in
  parse_args args w = Returned ("d"%string, Some EmptyString, false) w /\
  ~ In EmptyString (list_images ["b.PNG"; "a.png"; "notes.txt"]%string) /\
  files w !! "d/b.csv"%string = None /\
  files (final_world (main (fun _ => true) example_listdir "annotate.py"
                        args w)) !! "d/b.csv"%string = Some EmptyString /\
  stdout (final_world (main (fun _ => true) example_listdir "annotate.py"
                         args w))
  = [annotating_message "a.png"; "Saved 2 circles to d/a.csv";
     annotating_message "b.PNG"; "Saved 0 circles to d/b.csv"]%string.
Proof.
  vm_compute. repeat split. intros [H|[H|[]]]; discriminate H.
Qed.


Lemma undo_after_commits_witness :
  let st := mkSession (<[0%nat := [(1, 2, 3)]]> ∅) 0%nat (-1, -1) false 0 false in
  let c1 := mkCommit (100, 100) [Mouse EVENT_MOUSEMOVE 100 150; Key (-1)]
              (100, 150) [Mouse EVENT_MOUSEMOVE 7 7] in
  let c2 := mkCommit (7, 7) [] (10, 11) [Key (-1)] in
  exists st1 st2,
    interact (commits_events ([c1] ++ [c2]) ++ [Key KEY_U]) st = Waiting st1 /\
    interact (commits_events [c1]) st = Waiting st2 /\
    circles_of st1 = circles_of st2 /\
    circles_of st1 = [(1, 2, 3); (100, 100, 50)] /\
    drawing st1 = false.
Proof.
  exact (proj1 (undo_after_commits
    (mkSession (<[0%nat := [(1, 2, 3)]]> ∅) 0%nat (-1, -1) false 0 false)
    [mkCommit (100, 100) [Mouse EVENT_MOUSEMOVE 100 150; Key (-1)] (100, 150)
       [Mouse EVENT_MOUSEMOVE 7 7]]
    (mkCommit (7, 7) [] (10, 11) [Key (-1)]) KEY_U eq_refl
    ltac:(repeat constructor) eq_refl)).
Defined.

(** *** Scenarios of the specification, run on the model *)

Example str_examples :
  PyStr.str 0 = "0"%string /\ PyStr.str 1205 = "1205"%string /\
  PyStr.str (-37) = "-37"%string.
Proof. repeat split; reflexivity. Qed.

Example int_examples :
  PyStr.int "10" = Some 10 /\ PyStr.int "-007" = Some (-7) /\
  PyStr.int "+1_000" = Some 1000 /\ PyStr.int "1__0" = None /\
  PyStr.int "_1" = None /\ PyStr.int "1_" = None /\ PyStr.int "-" = None /\
  PyStr.int "3.5" = None /\ PyStr.int "x" = None.
Proof. repeat split; reflexivity. Qed.

Example reader_tolerance :
  read_line "10,20,30" = inr (Some (10, 20, 30)) /\
  read_line "10 20 30" = inr (Some (10, 20, 30)) /\
  read_line "10,20" = inr None /\
  read_lines ["10,20"; "1,2,3"]%string [] = inr [(1, 2, 3)].
Proof. repeat split; reflexivity. Qed.

Example splitext_examples :
  OsPath.splitext "a.b/img.tar.png" = ("a.b/img.tar", ".png")%string /\
  OsPath.splitext ".png" = (".png", "")%string /\
  OsPath.splitext "a.b/readme" = ("a.b/readme", "")%string.
Proof. repeat split; reflexivity. Qed.

Example list_images_example :
  list_images ["b.PNG"; "a.png"; "notes.txt"; ".png"; "c.jpeg"]%string
  = ["a.png"; "b.PNG"; "c.jpeg"]%string.
Proof. vm_compute. reflexivity. Qed.

(** Scenario A: no CSV on file; press, move, press, finish. *)
Example scenario_fresh_image :
  files (final_world
           (annotate_and_save (fun _ => true) "d" "b.PNG"
              (example_world
                 [Mouse EVENT_LBUTTONDOWN 100 100; Mouse EVENT_MOUSEMOVE 100 150;
                  Mouse EVENT_LBUTTONDOWN 100 150; Key KEY_SPACE])))
    !! "d/b.csv"%string
  = Some ("100,100,50" +:+ nl).
Proof. vm_compute. reflexivity. Qed.

(** Scenario E: an image revisited; undo right after loading removes the
    second of the two circles on file. *)
Example scenario_revisit_undo :
  files (final_world
           (annotate_and_save (fun _ => true) "d" "a.png"
              (example_world [Key KEY_U; Key KEY_SPACE])))
    !! "d/a.csv"%string
  = Some ("1,2,3" +:+ nl).
Proof. vm_compute. reflexivity. Qed.

(* ===================================================================== *)
(** ** Further properties of the annotation session                       *)
(* ===================================================================== *)

Section SessionMore.

Lemma on_key_undo code st :
  Z.land code 255 = KEY_U ->
  exists st1,
    on_key code st = Continue st1 /\
    circles_of st1 = removelast (circles_of st) /\
    saved st1 = saved st /\ center st1 = center st /\
    drawing st1 = drawing st /\ preview_radius st1 = preview_radius st /\
    quit_all st1 = quit_all st.
Proof.
  intros Hk. unfold on_key. rewrite Hk.
  change (KEY_U =? KEY_ESC) with false. change (KEY_U =? KEY_U) with true.
  change (KEY_U =? KEY_SPACE) with false. cbv iota. cbn [andb].
  destruct (circles_of st) as [|c l] eqn:El; cbn [is_empty negb].
  - exists st. now rewrite El.
  - exists (pop st). rewrite circles_of_pop, El. now repeat split.
Qed.

Lemma removelast_take {A} (l : list A) :
  removelast l = take (length l - 1)%nat l.
Proof.
  rewrite removelast_firstn_len. f_equal. lia.
Qed.

(** X1.  The undo key pressed k times removes the last k circles of the store,
    or all of them when there are fewer, in the Idle and in the Drawing
    state alike; nothing else of the session changes. *)
Theorem undo_repeated codes : forall st,
  Forall (fun code => Z.land code 255 = KEY_U) codes ->
  exists st',
    interact (map Key codes) st = Waiting st' /\
    circles_of st' =
      take (length (circles_of st) - length codes)%nat (circles_of st) /\
    saved st' = saved st /\ center st' = center st /\
    drawing st' = drawing st /\ preview_radius st' = preview_radius st /\
    quit_all st' = quit_all st.
Proof.
  induction codes as [|code codes IH]; intros st Hall.
  - exists st. simpl. repeat split.
    rewrite Nat.sub_0_r. now rewrite firstn_all.
  - inversion Hall as [|? ? Hcode Hcodes]; subst.
    destruct (on_key_undo code st Hcode)
      as (st1 & Hstep & Hl1 & Hs1 & Hc1 & Hd1 & Hp1 & Hq1).
    destruct (IH st1 Hcodes) as (st2 & Hrun & Hl2 & Hs2 & Hc2 & Hd2 & Hp2 & Hq2).
    exists st2. cbn [map interact]. rewrite Hstep.
    split; [exact Hrun|]. repeat split; try congruence.
    rewrite Hl2, Hl1, removelast_take.
    rewrite length_take, take_take. cbn [length]. f_equal. lia.
Qed.

Lemma undo_repeated_witness :
  exists st',
    interact [Key KEY_U; Key (KEY_U + 256); Key KEY_U]
      (mkSession (<[0%nat := [(1, 2, 3); (4, 5, 6)]]> ∅) 0%nat (9, 9) true 4
         false)
    = Waiting st' /\
    circles_of st' = [] /\ drawing st' = true.
Proof.
  destruct (undo_repeated [KEY_U; KEY_U + 256; KEY_U]
              (mkSession (<[0%nat := [(1, 2, 3); (4, 5, 6)]]> ∅) 0%nat (9, 9)
                 true 4 false)
              ltac:(repeat constructor))
    as (st' & Hrun & Hl & _ & _ & Hd & _).
  exists st'. split; [exact Hrun|]. split; [exact Hl | exact Hd].
Defined.

(** X2.  A draw that is cancelled leaves no trace: a press in the Idle state,
    quiet events and the cancel key give back the Idle state with the heap
    of lists, and so the store, exactly as before, and without [quit_all]
    being set. *)
Theorem cancelled_draw_leaves_store st x y evs code :
  drawing st = false ->
  forallb quiet evs = true ->
  Z.land code 255 = KEY_ESC ->
  exists st',
    interact (Mouse EVENT_LBUTTONDOWN x y :: evs ++ [Key code]) st
    = Waiting st' /\
    store st' = store st /\ saved st' = saved st /\
    drawing st' = false /\ quit_all st' = quit_all st.
Proof.
  intros Hd Hq Hk. cbn [interact]. unfold on_mouse at 1.
  change (EVENT_LBUTTONDOWN =? EVENT_LBUTTONDOWN) with true. cbv iota.
  rewrite Hd. cbn [negb].
  set (st0 := mkSession _ _ _ _ _ _).
  destruct (quiet_run evs st0 Hq) as (st1 & Hrun & Hs & Ha & Hc & Hd1 & Hqa).
  rewrite interact_app, Hrun. cbn [interact]. unfold on_key.
  rewrite Hk. change (KEY_ESC =? KEY_ESC) with true. cbv iota.
  rewrite Hd1. cbn [drawing st0].
  eexists. split; [reflexivity|]. cbn. now repeat split.
Qed.

Lemma cancelled_draw_leaves_store_witness :
  exists st',
    interact [Mouse EVENT_LBUTTONDOWN 5 5; Mouse EVENT_MOUSEMOVE 8 9;
              Key (-1); Key KEY_ESC]
      (mkSession (<[0%nat := [(1, 2, 3)]]> ∅) 0%nat (-1, -1) false 0 false)
    = Waiting st' /\
    store st' = <[0%nat := [(1, 2, 3)]]> ∅ /\ drawing st' = false /\
    quit_all st' = false.
Proof.
  destruct (cancelled_draw_leaves_store
              (mkSession (<[0%nat := [(1, 2, 3)]]> ∅) 0%nat (-1, -1) false 0
                 false)
              5 5 [Mouse EVENT_MOUSEMOVE 8 9; Key (-1)] KEY_ESC
              eq_refl eq_refl eq_refl)
    as (st' & Hrun & Hs & _ & Hd & Hq).
  exists st'. split; [exact Hrun|]. split; [exact Hs|]. split; assumption.
Defined.

Lemma undo_count_app a b :
  undo_count (a ++ b) = (undo_count a + undo_count b)%nat.
Proof. induction a as [|e a IH]; simpl; lia. Qed.

Lemma store_shape_mono loaded past more st :
  store_shape loaded past st -> store_shape loaded (past ++ more) st.
Proof.
  intros (k & cs & Hl & Hk & Hcs). exists k, cs. split; [exact Hl|]. split.
  - rewrite undo_count_app. lia.
  - eapply Forall_impl; [exact Hcs|]. intros c [Hp Hr]. split; [|exact Hr].
    unfold pressed_at in *. apply in_or_app. now left.
Qed.

(** The shape of the store, with the centre of a draw in progress, is kept
    by every event. *)
Lemma store_shape_step loaded past e st :
  store_shape loaded past st /\
  (drawing st = true -> pressed_at past (center st)) ->
  store_shape loaded (past ++ [e]) (step e st) /\
  (drawing (step e st) = true -> pressed_at (past ++ [e]) (center (step e st))).
Proof.
  intros [Hshape Hcentre].
  assert (Hkeep : forall st', circles_of st' = circles_of st ->
            store_shape loaded (past ++ [e]) st').
  { intros st' Heq. apply store_shape_mono.
    destruct Hshape as (k & cs & Hl & Hk & Hcs).
    exists k, cs. now rewrite Heq. }
  assert (Hold : drawing st = true -> pressed_at (past ++ [e]) (center st)).
  { intros Hd. unfold pressed_at. apply in_or_app. left. now apply Hcentre. }
  destruct e as [kind x y|code]; cbn [step].
  - unfold on_mouse. destruct (Z.eqb_spec kind EVENT_LBUTTONDOWN) as [->|Hk].
    + destruct (drawing st) eqn:Hd; cbn [negb].
      * split; [|discriminate].
        destruct Hshape as (k & cs & Hl & Hk & Hcs).
        exists k, (cs ++ [(fst (center st), snd (center st),
                           round_hypot (x - fst (center st))
                             (y - snd (center st)))]).
        unfold circles_of at 1. cbn [store saved].
        rewrite lookup_total_insert_eq, Hl, <- app_assoc.
        split; [reflexivity|]. split; [rewrite undo_count_app; lia|].
        apply Forall_app. split.
        -- eapply Forall_impl; [exact Hcs|]. intros c [Hp Hr].
           split; [|exact Hr]. unfold pressed_at in *.
           apply in_or_app. now left.
        -- constructor; [|constructor]. split.
           ++ cbn [fst snd]. now apply Hold.
           ++ apply round_hypot_nonneg.
      * split; [now apply Hkeep|]. intros _. cbn [center].
        unfold pressed_at. apply in_or_app. right. now left.
    + destruct ((kind =? EVENT_MOUSEMOVE) && drawing st); cbn [drawing center];
        (split; [now apply Hkeep | exact Hold]).
  - unfold on_key.
    destruct (Z.land code 255 =? KEY_ESC).
    + destruct (drawing st) eqn:Hd; cbn [control_state drawing center].
      * split; [now apply Hkeep | discriminate].
      * split; [now apply Hkeep | discriminate].
    + assert (Hpop : (Z.land code 255 =? KEY_U) = true ->
                store_shape loaded (past ++ [Key code]) (pop st)).
      { intros Hu. destruct Hshape as (k & cs & Hl & Hk & Hcs).
        unfold store_shape. rewrite circles_of_pop, Hl, undo_count_app.
        cbn [undo_count is_undo]. rewrite Hu.
        destruct cs as [|c cs' _] using rev_ind.
        - rewrite app_nil_r, removelast_take, take_take, length_take.
          eexists _, []. rewrite app_nil_r. split; [reflexivity|].
          split; [lia | constructor].
        - rewrite app_assoc, removelast_last. exists k, cs'.
          split; [reflexivity|]. split; [lia|].
          apply Forall_app in Hcs as [Hcs _].
          eapply Forall_impl; [exact Hcs|]. intros c' [Hp Hr].
          split; [|exact Hr]. unfold pressed_at in *.
          apply in_or_app. now left. }
      destruct (Z.land code 255 =? KEY_U);
        destruct (negb (is_empty (circles_of st))); cbn [andb];
        destruct (Z.land code 255 =? KEY_SPACE); cbn [control_state];
        (split; [first [now apply Hpop | now apply Hkeep] | exact Hold]).
Qed.

Lemma run_loop_history (Q : list event -> session -> Prop) :
  (forall past e st, Q past st -> Q (past ++ [e]) (step e st)) ->
  (forall past more st, Q past st -> Q (past ++ more) st) ->
  forall evs past at_top st,
    Q past st -> Q (past ++ evs) (run_state (run_loop at_top evs st)).
Proof.
  intros Hstep Hmono. induction evs as [|e evs IH]; intros past at_top st Hq;
    cbn [run_loop]; destruct (at_top && negb (renders st));
    try (now apply Hmono).
  pose proof (Hstep past e st Hq) as Hq'.
  replace (past ++ e :: evs) with ((past ++ [e]) ++ evs)
    by now rewrite <- app_assoc.
  destruct e as [kind x y|code]; cbn [step] in Hq'; [now apply IH|].
  destruct (on_key code st); cbn [control_state] in Hq';
    [now apply IH | now apply Hmono].
Qed.

(** X3.  Whatever the user does, the store is what is left of a prefix of the
    circles loaded at the start, followed by circles committed in this
    session: at least as many loaded circles are left as the undo keys of
    the session can spare (all of them when undo was never pressed), and
    each circle after them has its centre where the button was pressed in
    this session and a radius that is not negative.  Loaded circles are
    never edited or reordered, only removed from the end. *)
Theorem store_is_prefix_then_commits (h : heap) initial evs :
  let st := run_state (run_loop true evs (initial_session h initial)) in
  exists (k : nat) (cs : list circle),
    circles_of st = take k (h !!! initial) ++ cs /\
    (length (h !!! initial : list circle) - undo_count evs <= k)%nat /\
    Forall (fun c => pressed_at evs (fst c) /\ 0 <= radius c) cs.
Proof.
  pose proof (run_loop_history
    (fun past st => store_shape (h !!! initial) past st /\
       (drawing st = true -> pressed_at past (center st)))) as Hhist.
  specialize (Hhist
    ltac:(intros past e st Hq; now apply store_shape_step)
    ltac:(intros past more st [Hs Hc]; split;
          [now apply store_shape_mono
          |intros Hd; unfold pressed_at; apply in_or_app; left; now apply Hc])
    evs [] true (initial_session h initial)).
  cbn [app] in Hhist. apply Hhist. split; [|discriminate].
  exists (length (h !!! initial : list circle)), [].
  rewrite initial_session_circles, firstn_all, app_nil_r.
  split; [reflexivity|]. split; [lia | constructor].
Qed.

(** X4.  The loop returns only on a key: the finish key, in any state, which
    leaves the session as it was, or the cancel key in the Idle state,
    which only sets [quit_all].  The events after that key are left
    unread. *)
Theorem interact_ends_on_key evs : forall st st' rest,
  interact evs st = Finished st' rest ->
  exists pre code st1,
    evs = pre ++ Key code :: rest /\
    interact pre st = Waiting st1 /\
    ((Z.land code 255 = KEY_SPACE /\ st' = st1) \/
     (Z.land code 255 = KEY_ESC /\ drawing st1 = false /\
      st' = mkSession (store st1) (saved st1) (center st1) false
              (preview_radius st1) true)).
Proof.
  induction evs as [|e evs IH]; intros st st' rest Hrun; [discriminate|].
  destruct e as [kind x y|code0]; simpl in Hrun.
  - destruct (IH _ _ _ Hrun) as (pre & code & st1 & -> & Hpre & Hend).
    exists (Mouse kind x y :: pre), code, st1. now repeat split.
  - destruct (on_key code0 st) as [st2|st2] eqn:Hstep.
    + destruct (IH _ _ _ Hrun) as (pre & code & st1 & -> & Hpre & Hend).
      exists (Key code0 :: pre), code, st1. repeat split; try assumption.
      simpl. now rewrite Hstep.
    + injection Hrun as <- <-. exists [], code0, st.
      split; [reflexivity|]. split; [reflexivity|].
      unfold on_key in Hstep.
      destruct (Z.land code0 255 =? KEY_ESC) eqn:Hesc.
      * destruct (drawing st) eqn:Hd; [discriminate|].
        injection Hstep as <-. right. apply Z.eqb_eq in Hesc.
        now repeat split.
      * destruct (Z.land code0 255 =? KEY_SPACE) eqn:Hsp; [|discriminate].
        apply Z.eqb_eq in Hsp. rewrite Hsp in Hstep. simpl in Hstep.
        injection Hstep as <-. now left.
Qed.

Lemma interact_ends_on_key_witness :
  exists pre code st1,
    [Key KEY_U; Mouse EVENT_LBUTTONDOWN 1 1; Key KEY_SPACE; Key KEY_ESC]
    = pre ++ Key code :: [Key KEY_ESC] /\
    interact pre drawing_example = Waiting st1 /\
    ((Z.land code 255 = KEY_SPACE /\
      outcome_state (interact [Key KEY_U; Mouse EVENT_LBUTTONDOWN 1 1;
                               Key KEY_SPACE; Key KEY_ESC] drawing_example)
      = st1) \/
     (Z.land code 255 = KEY_ESC /\ drawing st1 = false /\
      outcome_state (interact [Key KEY_U; Mouse EVENT_LBUTTONDOWN 1 1;
                               Key KEY_SPACE; Key KEY_ESC] drawing_example)
      = mkSession (store st1) (saved st1) (center st1) false
          (preview_radius st1) true)).
Proof.
  exact (interact_ends_on_key
           [Key KEY_U; Mouse EVENT_LBUTTONDOWN 1 1; Key KEY_SPACE; Key KEY_ESC]
           drawing_example _ [Key KEY_ESC] eq_refl).
Defined.

End SessionMore.

(* ===================================================================== *)
(** ** Further properties of the CSV reader                               *)
(* ===================================================================== *)

Section ReaderMore.

Import PyStr.

Lemma split_all_space ws : all_chars isspace ws = true -> split ws = [].
Proof.
  induction ws as [|c ws IH]; [reflexivity|].
  simpl. intros [Hc Hws]%andb_prop. rewrite Hc. now apply IH.
Qed.

Lemma split_space_app ws s :
  all_chars isspace ws = true -> split (ws +:+ s) = split s.
Proof.
  induction ws as [|c ws IH]; [reflexivity|].
  intros [Hc Hws]%andb_prop. rewrite app_cons. cbn [split]. rewrite Hc.
  now apply IH.
Qed.

Lemma split_app_space s : forall ws,
  all_chars isspace ws = true -> split (s +:+ ws) = split s.
Proof.
  induction s as [|c s IH]; intros ws Hws.
  - rewrite app_nil. now apply split_all_space.
  - rewrite app_cons. cbn [split]. destruct (isspace c); [now apply IH|].
    destruct s as [|c' s].
    + rewrite app_nil. destruct ws as [|w ws']; [reflexivity|].
      pose proof Hws as Hws'. simpl in Hws'. apply andb_prop in Hws' as [Hw _].
      rewrite Hw. now rewrite split_all_space.
    + rewrite app_cons. rewrite <- app_cons. now rewrite (IH ws Hws).
Qed.

Lemma split_token_space t w rest :
  all_chars plain t = true -> t <> EmptyString -> isspace w = true ->
  split (t +:+ String w rest) = t :: split rest.
Proof.
  intros Ht Hne Hw. revert Ht Hne.
  induction t as [|c t IH]; [congruence|].
  intros [Hc Ht]%andb_prop _. rewrite app_cons. cbn [split].
  rewrite (plain_not_space c Hc).
  destruct t as [|c' t].
  - rewrite app_nil, Hw. cbn [split]. now rewrite Hw.
  - assert (Hc' : plain c' = true) by (simpl in Ht; now apply andb_prop in Ht).
    rewrite app_cons. rewrite (plain_not_space c' Hc').
    rewrite <- app_cons. now rewrite (IH Ht) by discriminate.
Qed.

Lemma split_token_spaces t ws rest :
  all_chars plain t = true -> t <> EmptyString ->
  all_chars isspace ws = true -> ws <> EmptyString ->
  split (t +:+ ws +:+ rest) = t :: split rest.
Proof.
  intros Ht Hne Hws Hwne. destruct ws as [|w ws]; [congruence|].
  simpl in Hws. apply andb_prop in Hws as [Hw Hws].
  rewrite app_cons, split_token_space by assumption.
  now rewrite split_space_app.
Qed.

Lemma lstrip_decomp s :
  exists ws, all_chars isspace ws = true /\ s = ws +:+ lstrip s.
Proof.
  induction s as [|c s (ws & Hws & Heq)]; [now exists EmptyString|].
  simpl. destruct (isspace c) eqn:Hc.
  - exists (String c ws). simpl. rewrite Hc, Hws. split; [reflexivity|].
    rewrite app_cons. now rewrite <- Heq.
  - now exists EmptyString.
Qed.

Lemma rstrip_decomp s :
  exists ws, all_chars isspace ws = true /\ s = rstrip s +:+ ws.
Proof.
  induction s as [|c s (ws & Hws & Heq)]; [now exists EmptyString|].
  simpl. destruct (rstrip s) as [|d t] eqn:Hr.
  - rewrite app_nil in Heq. subst ws. destruct (isspace c) eqn:Hc.
    + exists (String c s). simpl. now rewrite Hc, Hws.
    + exists s. now split.
  - exists ws. split; [exact Hws|]. rewrite app_cons. now rewrite <- Heq.
Qed.

Lemma replace_separators s :
  all_chars separator s = true ->
  all_chars isspace (replace "," " " s) = true.
Proof.
  induction s as [|c s IH]; [reflexivity|].
  simpl. intros [Hc Hs]%andb_prop. rewrite (IH Hs), andb_true_r.
  destruct (Ascii.eqb c ",") eqn:E; [reflexivity|].
  unfold separator in Hc. rewrite E, orb_false_r in Hc. exact Hc.
Qed.

Lemma space_is_separator s :
  all_chars isspace s = true -> all_chars separator s = true.
Proof.
  induction s as [|c s IH]; [reflexivity|].
  simpl. intros [Hc Hs]%andb_prop. unfold separator at 1.
  now rewrite Hc, (IH Hs).
Qed.

(** White space around a line plays no part in how it is split. *)
Lemma parts_without_strip line :
  parts line = split (replace "," " " line).
Proof.
  unfold parts, strip.
  destruct (lstrip_decomp line) as (ws0 & Hws0 & Heq0).
  destruct (rstrip_decomp (lstrip line)) as (ws1 & Hws1 & Heq1).
  rewrite Heq0 at 2. rewrite Heq1 at 2. rewrite !replace_app.
  rewrite split_space_app
    by (apply replace_separators, space_is_separator, Hws0).
  now rewrite split_app_space
    by (apply replace_separators, space_is_separator, Hws1).
Qed.

(** A line is read whatever separates its three numbers. *)
Lemma read_line_separated x y r s0 s1 s2 s3 :
  all_chars separator s0 = true -> all_chars separator s1 = true ->
  all_chars separator s2 = true -> all_chars separator s3 = true ->
  s1 <> EmptyString -> s2 <> EmptyString ->
  read_line (s0 +:+ str x +:+ s1 +:+ str y +:+ s2 +:+ str r +:+ s3)
  = inr (Some (x, y, r)).
Proof.
  intros H0 H1 H2 H3 N1 N2. unfold read_line.
  fold (parts (s0 +:+ str x +:+ s1 +:+ str y +:+ s2 +:+ str r +:+ s3)).
  rewrite parts_without_strip, !replace_app.
  rewrite (replace_plain (str x)), (replace_plain (str y)),
    (replace_plain (str r)) by apply str_plain.
  assert (Hne : forall s, s <> EmptyString -> replace "," " " s <> EmptyString)
    by (intros [|c s]; [congruence | discriminate]).
  rewrite split_space_app by now apply replace_separators.
  rewrite split_token_spaces
    by (try apply str_plain; try apply str_nonempty;
        try (now apply replace_separators); now apply Hne).
  rewrite split_token_spaces
    by (try apply str_plain; try apply str_nonempty;
        try (now apply replace_separators); now apply Hne).
  rewrite split_app_space by now apply replace_separators.
  rewrite split_plain by (apply str_plain || apply str_nonempty).
  now rewrite !int_str.
Qed.

Lemma inline_is_separator s :
  all_chars inline_separator s = true -> all_chars separator s = true.
Proof.
  induction s as [|c s IH]; [reflexivity|].
  simpl. intros [Hc Hs]%andb_prop. rewrite (IH Hs), andb_true_r.
  unfold inline_separator in Hc.
  now apply andb_prop in Hc as [[Hc _]%andb_prop _].
Qed.

Lemma inline_avoids_LF s :
  all_chars inline_separator s = true ->
  all_chars (fun c => negb (Ascii.eqb c LF)) s = true.
Proof.
  induction s as [|c s IH]; [reflexivity|].
  simpl. intros [Hc Hs]%andb_prop. rewrite (IH Hs), andb_true_r.
  unfold inline_separator in Hc.
  now apply andb_prop in Hc as [[_ Hc]%andb_prop _].
Qed.

Lemma inline_avoids_CR s :
  all_chars inline_separator s = true ->
  all_chars (fun c => negb (Ascii.eqb c CR)) s = true.
Proof.
  induction s as [|c s IH]; [reflexivity|].
  simpl. intros [Hc Hs]%andb_prop. rewrite (IH Hs), andb_true_r.
  unfold inline_separator in Hc.
  now apply andb_prop in Hc as [_ Hc].
Qed.

Lemma loose_text_avoids (c0 : ascii) l :
  plain c0 = false ->
  (forall s, all_chars inline_separator s = true ->
             all_chars (fun c => negb (Ascii.eqb c c0)) s = true) ->
  loose_ok l ->
  all_chars (fun c => negb (Ascii.eqb c c0)) (loose_text l) = true.
Proof.
  intros Hc0 Hsep (H0 & H1 & H2 & H3 & _ & _). unfold loose_text.
  rewrite !all_chars_app.
  rewrite (Hsep _ H0), (Hsep _ H1), (Hsep _ H2), (Hsep _ H3).
  now rewrite !(plain_avoids c0 (str _)) by (try apply str_plain; assumption).
Qed.

Lemma line_text_avoids_LF l :
  line_ok l -> all_chars (fun c => negb (Ascii.eqb c LF)) (line_text l) = true.
Proof.
  destruct l as [r|text]; simpl.
  - apply loose_text_avoids; [reflexivity | apply inline_avoids_LF].
  - now intros (H & _ & _).
Qed.

Lemma line_text_avoids_CR l :
  line_ok l -> all_chars (fun c => negb (Ascii.eqb c CR)) (line_text l) = true.
Proof.
  destruct l as [r|text]; simpl.
  - apply loose_text_avoids; [reflexivity | apply inline_avoids_CR].
  - now intros (_ & H & _).
Qed.

Lemma file_text_avoids_CR ls :
  Forall line_ok ls ->
  all_chars (fun c => negb (Ascii.eqb c CR)) (file_text ls) = true.
Proof.
  induction 1 as [|l ls Hl Hls IH]; [reflexivity|].
  cbn [file_text]. rewrite all_chars_app, line_text_avoids_CR by exact Hl.
  cbn [all_chars andb]. change (negb (Ascii.eqb LF CR)) with true. exact IH.
Qed.

Lemma lines_file_text ls :
  Forall line_ok ls ->
  lines (file_text ls)
  = map (fun l => line_text l +:+ String LF EmptyString) ls.
Proof.
  induction 1 as [|l ls Hl Hls IH]; [reflexivity|].
  cbn [file_text map]. now rewrite lines_app_LF, IH
    by now apply line_text_avoids_LF.
Qed.

Lemma read_line_of_file_line l :
  line_ok l ->
  read_line (line_text l +:+ String LF EmptyString) = inr (line_circle l).
Proof.
  destruct l as [r|text]; simpl.
  - intros (H0 & H1 & H2 & H3 & N1 & N2). unfold loose_text.
    rewrite !app_assoc_s.
    apply read_line_separated; try (now apply inline_is_separator);
      try assumption.
    rewrite all_chars_app, inline_is_separator by exact H3. reflexivity.
  - intros (_ & _ & Hparts). apply read_line_wrong_arity.
    fold (parts (text +:+ String LF EmptyString)).
    rewrite parts_without_strip, replace_app, split_app_space by reflexivity.
    now rewrite <- parts_without_strip.
Qed.

Lemma read_lines_file_lines ls : forall acc,
  Forall line_ok ls ->
  read_lines (map (fun l => line_text l +:+ String LF EmptyString) ls) acc
  = inr (acc ++ omap line_circle ls).
Proof.
  induction ls as [|l ls IH]; intros acc Hall.
  - simpl. now rewrite app_nil_r.
  - inversion Hall as [|? ? Hl Hls]; subst. cbn [map read_lines].
    rewrite read_line_of_file_line by exact Hl.
    destruct l as [r|text]; cbn [line_circle omap].
    + rewrite IH by exact Hls. cbn. now rewrite <- app_assoc.
    + rewrite IH by exact Hls. reflexivity.
Qed.

(** X5.  [read_csv] reads by hand-written files as well as its own: when
    every line of the file is either a row of three integers separated by
    any non-empty mix of commas and white space (with any such mix before
    and after), or a line that does not split into three parts, it returns
    a new list of exactly the rows, in file order, and leaves the files
    alone. *)
Theorem read_csv_reads_loose_rows path w ls :
  files w !! path = Some (file_text ls) ->
  Forall line_ok ls ->
  exists a w',
    read_csv path w = Returned a w' /\
    objects w' !! a = Some (omap line_circle ls) /\
    files w' = files w.
Proof.
  intros Hfile Hall.
  assert (Hval : read_csv_value (files w) path = inr (omap line_circle ls)).
  { unfold read_csv_value. rewrite Hfile.
    rewrite universal_newlines_no_CR by now apply file_text_avoids_CR.
    rewrite lines_file_text by exact Hall.
    now rewrite read_lines_file_lines. }
  unfold read_csv. rewrite Hval. eexists _, _. split; [reflexivity|].
  split; [apply lookup_insert_eq | reflexivity].
Qed.

Lemma read_csv_reads_loose_rows_witness :
  exists a w',
    read_csv "d/a.csv"
      (mkWorld (<["d/a.csv" := file_text example_lines]> ∅) ∅ [] [])
    = Returned a w' /\
    objects w' !! a = Some [(10, -20, 30); (1, 2, 3)].
Proof.
  destruct (read_csv_reads_loose_rows "d/a.csv"
              (mkWorld (<["d/a.csv" := file_text example_lines]> ∅) ∅ [] [])
              example_lines
              ltac:(apply lookup_insert_eq)
              ltac:(repeat constructor; discriminate))
    as (a & w' & Hrun & Hobj & _).
  exists a, w'. split; [exact Hrun | exact Hobj].
Defined.

End ReaderMore.

(* ===================================================================== *)
(** ** Further properties of the image listing                            *)
(* ===================================================================== *)

Section ListingMore.

Lemma leb_true_trans a b c : leb_true a b -> leb_true b c -> leb_true a c.
Proof.
  unfold leb_true. intros Hab Hbc.
  apply Is_true_true. apply Is_true_true in Hab, Hbc.
  exact (transitivity (R := String.le) Hab Hbc).
Qed.

Lemma insert_sorted_perm x l : insert_sorted x l ≡ₚ x :: l.
Proof.
  induction l as [|y l IH]; [reflexivity|].
  simpl. destruct (String.leb x y); [reflexivity|].
  rewrite IH. apply Permutation_swap.
Qed.

Lemma insert_sorted_sorted x l :
  StronglySorted leb_true l -> StronglySorted leb_true (insert_sorted x l).
Proof.
  induction 1 as [|y l Hl IH Hy]; simpl.
  - repeat constructor.
  - destruct (String.leb x y) eqn:Hxy.
    + constructor; [now constructor|].
      constructor; [exact Hxy|].
      eapply Forall_impl; [exact Hy|].
      intros z Hz. now apply (leb_true_trans x y z).
    + constructor; [exact IH|].
      rewrite insert_sorted_perm. constructor; [|exact Hy].
      destruct (String.leb_total x y) as [H|H]; [congruence | exact H].
Qed.

Lemma sorted_perm l : sorted l ≡ₚ l.
Proof.
  induction l as [|x l IH]; [reflexivity|].
  unfold sorted in *. simpl. now rewrite insert_sorted_perm, IH.
Qed.

Lemma sorted_sorted l : StronglySorted leb_true (sorted l).
Proof.
  induction l as [|x l IH]; [constructor|].
  unfold sorted in *. simpl. now apply insert_sorted_sorted.
Qed.

(** X7.  [list_images] returns the names whose lower-cased extension is one of
    the three, each as often as it is listed, in ascending order of code
    points: every name in the result is at most every name after it. *)
Theorem list_images_sorted_filter names :
  list_images names ≡ₚ filter (fun name => is_image name = true) names /\
  StronglySorted leb_true (list_images names) /\
  (forall name,
     name ∈ list_images names <-> name ∈ names /\ is_image name = true).
Proof.
  unfold list_images. split; [apply sorted_perm|].
  split; [apply sorted_sorted|].
  intros name. rewrite sorted_perm, list_elem_of_filter. tauto.
Qed.

End ListingMore.

Section ExtensionMore.

Import OsPath.

Lemma length_app_s (s t : string) :
  String.length (s +:+ t) = (String.length s + String.length t)%nat.
Proof.
  induction s as [|c s IH]; [reflexivity|].
  rewrite app_cons. simpl. now rewrite IH.
Qed.

Lemma get_app_length pre c rest :
  String.get (String.length pre) (pre +:+ String c rest) = Some c.
Proof.
  induction pre as [|d pre IH]; [reflexivity|].
  rewrite app_cons. simpl. exact IH.
Qed.

Lemma substring_app_l s t : String.substring 0 (String.length s) (s +:+ t) = s.
Proof.
  induction s as [|c s IH].
  - simpl. rewrite app_nil. now destruct t.
  - rewrite app_cons. simpl. now rewrite IH.
Qed.

Lemma substring_all t : String.substring 0 (String.length t) t = t.
Proof. induction t as [|c t IH]; [reflexivity|]. simpl. now rewrite IH. Qed.

Lemma substring_app_r s t :
  String.substring (String.length s) (String.length t) (s +:+ t) = t.
Proof.
  induction s as [|c s IH].
  - rewrite app_nil. apply substring_all.
  - rewrite app_cons. simpl. exact IH.
Qed.

Lemma rfind_from_app c s : forall t i found,
  rfind_from c (s +:+ t) i found
  = rfind_from c t (i + Z.of_nat (String.length s)) (rfind_from c s i found).
Proof.
  induction s as [|d s IH]; intros t i found.
  - rewrite app_nil. simpl. now rewrite Z.add_0_r.
  - rewrite app_cons. cbn [rfind_from String.length]. rewrite IH.
    f_equal. lia.
Qed.

Lemma rfind_from_avoids c s : forall i found,
  avoids c s = true -> rfind_from c s i found = found.
Proof.
  induction s as [|d s IH]; intros i found; [reflexivity|].
  unfold avoids. simpl. intros [Hd Hs]%andb_prop.
  apply negb_true_iff in Hd. rewrite Hd. now apply IH.
Qed.

Lemma skip_leading_dots_app s : forall pre t,
  skip_leading_dots (String.length s) (pre +:+ s +:+ t)
    (Z.of_nat (String.length pre))
  = negb (only_dots s).
Proof.
  induction s as [|c s IH]; intros pre t; [reflexivity|].
  cbn [String.length skip_leading_dots]. unfold not_dot_at.
  rewrite Nat2Z.id, app_cons, get_app_length.
  unfold only_dots. cbn [all_chars].
  destruct (Ascii.eqb c ".") eqn:Hc; [|reflexivity].
  cbn [negb andb].
  specialize (IH (pre +:+ String c EmptyString) t).
  rewrite length_app_s in IH. cbn [String.length] in IH.
  rewrite app_assoc_s, app_cons, app_nil in IH.
  replace (Z.of_nat (String.length pre) + 1)
    with (Z.of_nat (String.length pre + 1)) by lia.
  exact IH.
Qed.

(** [os.path.splitext] on a name without directory part: the extension
    starts at the last dot, provided something other than dots comes
    before it. *)
Lemma splitext_last_dot s e :
  avoids "/" s = true -> avoids "/" e = true -> avoids "." e = true ->
  only_dots s = false ->
  splitext (s +:+ String "." e) = (s, String "." e).
Proof.
  intros Hs He Hdot Hnd. unfold splitext, rfind.
  assert (Hsep : rfind_from "/" (s +:+ String "." e) 0 (-1) = -1).
  { apply rfind_from_avoids. unfold avoids in *.
    rewrite all_chars_app, Hs. cbn [all_chars]. now rewrite He. }
  assert (Hd : rfind_from "." (s +:+ String "." e) 0 (-1)
               = Z.of_nat (String.length s)).
  { rewrite rfind_from_app. cbn [rfind_from].
    change (Ascii.eqb "." ".") with true. cbv iota.
    now rewrite rfind_from_avoids. }
  rewrite Hsep, Hd.
  replace (Z.of_nat (String.length s) - (-1 + 1))
    with (Z.of_nat (String.length s)) by lia.
  rewrite Nat2Z.id.
  change (-1 + 1) with (Z.of_nat (String.length EmptyString)).
  pose proof (skip_leading_dots_app s EmptyString (String "." e)) as Hskip.
  rewrite app_nil in Hskip. rewrite Hskip, Hnd.
  replace (-1 <? Z.of_nat (String.length s)) with true
    by (symmetry; apply Z.ltb_lt; lia).
  cbn [andb negb].
  rewrite substring_app_l. f_equal.
  rewrite length_app_s.
  replace (String.length s + String.length (String "." e) - String.length s)%nat
    with (String.length (String "." e)) by lia.
  apply substring_app_r.
Qed.

Lemma lower_app a b : PyStr.lower (a +:+ b) = PyStr.lower a +:+ PyStr.lower b.
Proof.
  induction a as [|c a IH]; [reflexivity|].
  rewrite app_cons. simpl. now rewrite IH, app_cons.
Qed.

Lemma lower_char_keeps (c0 c : ascii) :
  c0 = "."%char \/ c0 = "/"%char ->
  Ascii.eqb (PyStr.lower_char c) c0 = Ascii.eqb c c0.
Proof.
  intros [-> | ->];
    destruct c as [[] [] [] [] [] [] [] []]; reflexivity.
Qed.

Lemma lower_avoids c0 s :
  c0 = "."%char \/ c0 = "/"%char ->
  avoids c0 (PyStr.lower s) = avoids c0 s.
Proof.
  intros Hc. unfold avoids. induction s as [|c s IH]; [reflexivity|].
  simpl. now rewrite lower_char_keeps, IH.
Qed.

Lemma lower_only_dots s : only_dots (PyStr.lower s) = only_dots s.
Proof.
  unfold only_dots. induction s as [|c s IH]; [reflexivity|].
  simpl. now rewrite lower_char_keeps, IH by now left.
Qed.

(** X8.  A name without a slash that ends, in any mix of upper and lower case,
    in [.jpg], [.jpeg] or [.png] is an image, provided what comes before
    the extension is not made of dots only (so [.png] alone is not). *)
Theorem is_image_by_extension stem ext :
  avoids "/" stem = true ->
  only_dots stem = false ->
  In (PyStr.lower ext) exts ->
  is_image (stem +:+ ext) = true.
Proof.
  intros Hslash Hdots Hext. unfold is_image. rewrite lower_app.
  assert (Hsplit : splitext (PyStr.lower stem +:+ PyStr.lower ext)
                   = (PyStr.lower stem, PyStr.lower ext)).
  { assert (Hs : avoids "/" (PyStr.lower stem) = true)
      by (rewrite lower_avoids; auto).
    assert (Hd : only_dots (PyStr.lower stem) = false)
      by now rewrite lower_only_dots.
    destruct Hext as [<-|[<-|[<-|[]]]];
      now apply splitext_last_dot. }
  rewrite Hsplit. cbn [snd].
  apply existsb_exists. exists (PyStr.lower ext).
  split; [exact Hext | apply String.eqb_refl].
Qed.

Lemma is_image_by_extension_witness :
  is_image ("coins.v2" +:+ ".JpEg") = true.
Proof.
  exact (is_image_by_extension "coins.v2" ".JpEg" eq_refl eq_refl
           ltac:(vm_compute; auto)).
Defined.

(** X9.  A name made of dots only before its last dot, such as [.png] or
    [..jpg], has no extension for [os.path.splitext] and is not an
    image. *)
Theorem dotfile_is_not_image dots e :
  only_dots dots = true ->
  avoids "." e = true -> avoids "/" e = true ->
  is_image (dots +:+ String "." e) = false.
Proof.
  intros Hdots Hdot Hslash. unfold is_image.
  rewrite lower_app. cbn [PyStr.lower].
  change (PyStr.lower_char ".") with "."%char.
  set (s := PyStr.lower dots). set (e' := PyStr.lower e).
  assert (Hs : only_dots s = true) by (unfold s; now rewrite lower_only_dots).
  assert (He1 : avoids "." e' = true)
    by (unfold e'; rewrite lower_avoids; auto).
  assert (He2 : avoids "/" e' = true)
    by (unfold e'; rewrite lower_avoids; auto).
  assert (Hs2 : avoids "/" s = true).
  { clear -Hs. unfold only_dots, avoids in *.
    induction s as [|c s IH]; [reflexivity|].
    simpl in *. apply andb_prop in Hs as [Hc Hs].
    apply Ascii.eqb_eq in Hc as ->. now rewrite IH. }
  unfold splitext, rfind.
  assert (Hsep : rfind_from "/" (s +:+ String "." e') 0 (-1) = -1).
  { apply rfind_from_avoids. unfold avoids in *.
    rewrite all_chars_app, Hs2. cbn [all_chars]. now rewrite He2. }
  assert (Hd : rfind_from "." (s +:+ String "." e') 0 (-1)
               = Z.of_nat (String.length s)).
  { rewrite rfind_from_app. cbn [rfind_from].
    change (Ascii.eqb "." ".") with true. cbv iota.
    now rewrite rfind_from_avoids. }
  rewrite Hsep, Hd.
  replace (Z.of_nat (String.length s) - (-1 + 1))
    with (Z.of_nat (String.length s)) by lia.
  rewrite Nat2Z.id.
  change (-1 + 1) with (Z.of_nat (String.length EmptyString)).
  pose proof (skip_leading_dots_app s EmptyString (String "." e')) as Hskip.
  rewrite app_nil in Hskip. rewrite Hskip, Hs.
  rewrite andb_false_r. reflexivity.
Qed.

Lemma dotfile_is_not_image_witness : is_image (".." +:+ ".png") = false.
Proof. exact (dotfile_is_not_image ".." "png" eq_refl eq_refl eq_refl). Defined.

(** X17.  Images that differ only in their extension share one annotation
    file: the CSV of [stem.ext] is [stem.csv] in the dataset folder,
    whatever the extension. *)
Theorem same_stem_same_csv d stem e1 e2 :
  avoids "/" stem = true -> only_dots stem = false ->
  avoids "." e1 = true -> avoids "/" e1 = true ->
  avoids "." e2 = true -> avoids "/" e2 = true ->
  csv_path_of d (stem +:+ String "." e1) = join d (stem +:+ ".csv") /\
  csv_path_of d (stem +:+ String "." e1)
  = csv_path_of d (stem +:+ String "." e2).
Proof.
  intros Hs Hd H1 H1' H2 H2'. unfold csv_path_of.
  now rewrite !splitext_last_dot.
Qed.

Lemma same_stem_same_csv_witness :
  csv_path_of "d" "coin.png" = "d/coin.csv"%string /\
  csv_path_of "d" "coin.png" = csv_path_of "d" "coin.jpeg".
Proof.
  exact (same_stem_same_csv "d" "coin" "png" "jpeg"
           eq_refl eq_refl eq_refl eq_refl eq_refl eq_refl).
Defined.

End ExtensionMore.

(* ===================================================================== *)
(** ** Further properties of the driver                                   *)
(* ===================================================================== *)

Section ArgumentsMore.

Lemma parse_args_from_pairs ps : forall d s h w,
  parse_args_from (pairs_args ps) d s h w
  = Returned (apply_pairs ps (d, s), h) w.
Proof.
  induction ps as [|[f v] ps IH]; intros d s h w.
  - simpl. unfold ret. now destruct (apply_pairs [] (d, s)).
  - change (pairs_args ((f, v) :: ps))
      with (flag_text f :: v :: pairs_args ps).
    destruct f; cbn [parse_args_from flag_text];
      change (String.eqb "--dataset" "-h") with false;
      change (String.eqb "--dataset" "--help") with false;
      change (String.eqb "--single" "-h") with false;
      change (String.eqb "--single" "--help") with false;
      change (String.eqb "--dataset" "--dataset") with true;
      change (String.eqb "--single" "--dataset") with false;
      change (String.eqb "--single" "--single") with true;
      cbv iota; cbn [orb]; cbv iota; rewrite IH; reflexivity.
Qed.

(** Once help is asked for, it stays asked for. *)
Lemma parse_args_from_help n : forall args d s w d' s' h' w0,
  (length args <= n)%nat ->
  parse_args_from args d s true w = Returned (d', s', h') w0 -> h' = true.
Proof.
  induction n as [|n IH]; intros args d s w d' s' h' w0 Hlen.
  - destruct args; [|simpl in Hlen; lia]. now intros [= _ _ <- _].
  - destruct args as [|arg rest]; [now intros [= _ _ <- _]|].
    simpl in Hlen. cbn [parse_args_from].
    assert (Hunknown :
      (do _ <- print ("Unknown argument: " +:+ arg);
       parse_args_from rest d s true) w = Returned (d', s', h') w0 ->
      h' = true).
    { unfold bind, print. apply IH. lia. }
    destruct (String.eqb arg "-h" || String.eqb arg "--help");
      [apply IH; lia|].
    destruct rest as [|value rest']; [exact Hunknown|].
    simpl in Hlen.
    destruct (String.eqb arg "--dataset"); [apply IH; lia|].
    destruct (String.eqb arg "--single"); [apply IH; lia|].
    exact Hunknown.
Qed.

Lemma parse_args_from_no_help n : forall args d s h w d' s' w0,
  (length args <= n)%nat ->
  parse_args_from args d s h w = Returned (d', s', false) w0 ->
  h = false /\ w0 = w /\
  exists ps, args = pairs_args ps /\ (d', s') = apply_pairs ps (d, s).
Proof.
  induction n as [|n IH]; intros args d s h w d' s' w0 Hlen.
  - destruct args; [|simpl in Hlen; lia].
    intros [= <- <- <- <-]. repeat split. now exists [].
  - destruct args as [|arg rest].
    { intros [= <- <- <- <-]. repeat split. now exists []. }
    simpl in Hlen. cbn [parse_args_from].
    assert (Hunknown :
      (do _ <- print ("Unknown argument: " +:+ arg);
       parse_args_from rest d s true) w = Returned (d', s', false) w0 ->
      h = false /\ w0 = w /\
      exists ps, arg :: rest = pairs_args ps /\ (d', s') = apply_pairs ps (d, s)).
    { unfold bind, print. intros H.
      apply (parse_args_from_help (length rest)) in H; [discriminate | lia]. }
    destruct (String.eqb arg "-h" || String.eqb arg "--help").
    { intros H.
      apply (parse_args_from_help (length rest)) in H; [discriminate | lia]. }
    destruct rest as [|value rest']; [exact Hunknown|].
    simpl in Hlen.
    destruct (String.eqb_spec arg "--dataset") as [->|Hnd].
    { intros H. apply IH in H as (-> & -> & ps & -> & Heq); [|lia].
      repeat split. now exists ((Dataset, value) :: ps). }
    destruct (String.eqb_spec arg "--single") as [->|Hns]; [|exact Hunknown].
    intros H. apply IH in H as (-> & -> & ps & -> & Heq); [|lia].
    repeat split. now exists ((Single, value) :: ps).
Qed.

(** X10.  [parse_args] returns without asking for help exactly on the argument
    lists made of [--dataset <value>] and [--single <value>] pairs; it then
    prints nothing, and each of the two results is the value of the last
    option of its kind, or the default.  On every other argument list it
    asks for help. *)
Theorem parse_args_accepts_pairs args w d s w0 :
  parse_args args w = Returned (d, s, false) w0 <->
  w0 = w /\
  exists ps,
    args = pairs_args ps /\
    (d, s) = apply_pairs ps (DATASET_DIR_DEFAULT, None).
Proof.
  unfold parse_args. split.
  - intros H.
    apply (parse_args_from_no_help (length args)) in H
      as (_ & -> & ps & Hargs & Hres); [|lia].
    split; [reflexivity|]. now exists ps.
  - intros (-> & ps & -> & Hres).
    rewrite parse_args_from_pairs. now rewrite <- Hres.
Qed.

End ArgumentsMore.

Lemma parse_args_accepts_pairs_witness :
  parse_args ["--single"; "a.png"; "--dataset"; "d"; "--single"; "-h"]%string
    (example_world [])
  = Returned ("d"%string, Some "-h"%string, false) (example_world []).
Proof.
  exact (proj2 (parse_args_accepts_pairs
                  ["--single"; "a.png"; "--dataset"; "d"; "--single"; "-h"]%string
                  (example_world []) "d" (Some "-h"%string) (example_world []))
           (conj eq_refl
              (ex_intro _ [(Single, "a.png"); (Dataset, "d"); (Single, "-h")]%string
                 (conj eq_refl eq_refl)))).
Defined.

Section DriverMore.

Variable imread : string -> bool.
Variable listdir : string -> option (list string).

Lemma run_loop_objects (h : heap) initial evs :
  let st := run_state (run_loop true evs (initial_session h initial)) in
  saved st = fresh (dom h) /\
  is_Some (store st !! saved st) /\
  forall l, l <> fresh (dom h) -> store st !! l = h !! l.
Proof.
  apply (run_loop_invariant
           (fun st => saved st = fresh (dom h) /\
              is_Some (store st !! saved st) /\
              forall l, l <> fresh (dom h) -> store st !! l = h !! l)).
  - intros kind x y st (Hs & Hsome & Hframe).
    rewrite on_mouse_saved. split; [exact Hs|]. split.
    + unfold on_mouse. destruct (kind =? EVENT_LBUTTONDOWN).
      * destruct (drawing st); simpl; [|exact Hsome].
        rewrite lookup_insert_eq. eauto.
      * destruct ((kind =? EVENT_MOUSEMOVE) && drawing st); exact Hsome.
    + intros l Hl. rewrite on_mouse_frame by congruence. now apply Hframe.
  - intros code st (Hs & Hsome & Hframe).
    rewrite on_key_saved. split; [exact Hs|]. split.
    + unfold on_key. destruct (Z.land code 255 =? KEY_ESC).
      * destruct (drawing st); exact Hsome.
      * destruct ((Z.land code 255 =? KEY_U)
                  && negb (is_empty (circles_of st)));
          destruct (Z.land code 255 =? KEY_SPACE); simpl;
          try exact Hsome; rewrite lookup_insert_eq; eauto.
    + intros l Hl. rewrite on_key_frame by congruence. now apply Hframe.
  - unfold initial_session. simpl. split; [reflexivity|]. split.
    + rewrite lookup_insert_eq. eauto.
    + intros l Hl. now rewrite lookup_insert_ne.
Qed.

(** X11.  The list [annotate_image] returns is always a new object: it was not
    in the heap before the call, so it is never the list passed in, and
    every list that was in the heap holds afterwards what it held before.
    The call writes no file. *)
Theorem annotate_image_returns_new_list path initial w a q w' :
  annotate_image imread path initial w = Returned (a, q) w' ->
  objects w !! a = None /\
  is_Some (objects w' !! a) /\
  (forall l, is_Some (objects w !! l) -> objects w' !! l = objects w !! l) /\
  files w' = files w.
Proof.
  assert (Hfresh : objects w !! fresh (dom (objects w)) = None)
    by apply not_elem_of_dom, is_fresh.
  assert (Hold : forall l, is_Some (objects w !! l) ->
                   l <> fresh (dom (objects w))).
  { intros l [v Hv] ->. congruence. }
  destruct (imread path) eqn:Him.
  - rewrite annotate_image_decodable by exact Him.
    pose proof (run_loop_objects (objects w) initial (events w))
      as (Hs & Hsome & Hframe).
    destruct (run_loop true (events w) (initial_session (objects w) initial))
      as [[st rest|st]|st rest]; try discriminate.
    simpl in Hs, Hsome, Hframe. intros [= <- <- <-]. simpl.
    rewrite Hs in *. repeat split; try assumption.
    intros l Hl. apply Hframe. now apply Hold.
  - rewrite annotate_image_undecodable by exact Him.
    intros [= <- <- <-]. simpl. split; [exact Hfresh|]. split.
    + rewrite lookup_insert_eq. eauto.
    + split; [|reflexivity].
      intros l Hl. rewrite lookup_insert_ne; [reflexivity|].
      intros Heq. now apply (Hold l Hl).
Qed.

Lemma annotate_image_files path initial w :
  files (final_world (annotate_image imread path initial w)) = files w.
Proof.
  destruct (imread path) eqn:Him.
  - rewrite annotate_image_decodable by exact Him.
    now destruct (run_loop true (events w)
                    (initial_session (objects w) initial)) as [[|]|].
  - now rewrite annotate_image_undecodable by exact Him.
Qed.

Lemma read_csv_files path w :
  files (final_world (read_csv path w)) = files w.
Proof.
  unfold read_csv. now destruct (read_csv_value (files w) path).
Qed.

(** What [annotate_and_save] does to the files, whatever comes of it. *)
Lemma annotate_and_save_files d name w :
  match annotate_and_save imread d name w with
  | Returned _ w' =>
      exists l, files w' = <[csv_path_of d name := csv_text l]> (files w)
  | Raised _ w' => files w' = files w
  | Pending w' => files w' = files w
  end.
Proof.
  rewrite annotate_and_save_unfold.
  pose proof (read_csv_files (csv_path_of d name) w) as Hread.
  destruct (read_csv (csv_path_of d name) w) as [existing wa|e wa|wa];
    simpl in Hread; try exact Hread.
  pose proof (annotate_image_files (OsPath.join d name) existing
                (add_line (annotating_message name) wa)) as Hann.
  destruct (annotate_image imread (OsPath.join d name) existing
              (add_line (annotating_message name) wa))
    as [[circles q] wb|e wb|wb]; simpl in Hann.
  - exists (objects wb !!! circles). simpl. now rewrite Hann, Hread.
  - now rewrite Hann.
  - now rewrite Hann.
Qed.

(** X12.  The CSV of an image is written only when its session has ended: while
    the session waits for input, and when reading the old CSV raises, the
    files are as they were. *)
Theorem nothing_saved_unless_returned d name w :
  (forall q w', annotate_and_save imread d name w <> Returned q w') ->
  files (final_world (annotate_and_save imread d name w)) = files w.
Proof.
  intros Hnot. pose proof (annotate_and_save_files d name w) as H.
  destruct (annotate_and_save imread d name w) as [q w'|e w'|w'];
    [now destruct (Hnot q w') | exact H | exact H].
Qed.

Lemma annotate_and_save_frame d name w p :
  p <> csv_path_of d name ->
  files (final_world (annotate_and_save imread d name w)) !! p = files w !! p.
Proof.
  intros Hp. pose proof (annotate_and_save_files d name w) as H.
  destruct (annotate_and_save imread d name w) as [q w'|e w'|w']; simpl.
  - destruct H as [l ->]. now rewrite lookup_insert_ne.
  - now rewrite H.
  - now rewrite H.
Qed.

Lemma for_images_frame d images p : forall w,
  (forall name, name ∈ images -> p <> csv_path_of d name) ->
  files (final_world (for_images imread d images w)) !! p = files w !! p.
Proof.
  induction images as [|name images IH]; intros w Hp; [reflexivity|].
  cbn [for_images]. unfold bind.
  pose proof (annotate_and_save_frame d name w p
                (Hp name ltac:(left))) as Hone.
  destruct (annotate_and_save imread d name w) as [q w'|e w'|w'];
    simpl in Hone; try exact Hone.
  destruct q; [exact Hone|].
  rewrite IH; [exact Hone|].
  intros name' Hin. apply Hp. now right.
Qed.

(** X13.  [main] writes no file but the CSVs of the images it lists: a path that
    is not the CSV path of an image of the dataset folder holds after the
    run, however it ends, what it held before. *)
Theorem main_writes_only_image_csvs argv0 args w d target help w0 p :
  parse_args args w = Returned (d, target, help) w0 ->
  (forall names name,
     listdir d = Some names -> name ∈ list_images names ->
     p <> csv_path_of d name) ->
  files (final_world (main imread listdir argv0 args w)) !! p = files w !! p.
Proof.
  intros Hparse Hp.
  destruct (parse_args_frame _ _ _ _ Hparse) as (Hf & _ & _).
  unfold main, bind. rewrite Hparse. rewrite <- Hf.
  destruct help; [reflexivity|].
  destruct (listdir d) as [names|] eqn:Hdir; [|reflexivity].
  destruct (list_images names) as [|img images] eqn:Himgs; [reflexivity|].
  assert (Hp' : forall name, name ∈ img :: images -> p <> csv_path_of d name).
  { intros name Hin. apply (Hp names name eq_refl). now rewrite Himgs. }
  destruct (truthy target
            && negb (existsb (String.eqb (target_name target)) (img :: images)))
    eqn:Hmiss; [reflexivity|].
  destruct (truthy target) eqn:Ht.
  - cbn [andb] in Hmiss.
    apply negb_false_iff, existsb_exists in Hmiss as (x & Hin & Heq).
    apply String.eqb_eq in Heq as <-.
    apply list_elem_of_In in Hin.
    pose proof (annotate_and_save_frame d (target_name target) w0 p
                  (Hp' _ Hin)) as Hone.
    unfold bind.
    destruct (annotate_and_save imread d (target_name target) w0); exact Hone.
  - apply for_images_frame. exact Hp'.
Qed.

Lemma read_csv_value_of_written (fs : filesystem) path cs :
  fs !! path = Some (csv_text cs) -> read_csv_value fs path = inr cs.
Proof.
  intros H. rewrite <- (insert_id fs path (csv_text cs) H).
  apply read_csv_value_written.
Qed.

(** X14.  What a session saves is what the next session on the same image
    loads: after [annotate_and_save] has returned, the CSV of the image
    holds the circles the session ended with, and [read_csv] on it gives a
    list of exactly these circles, with which the next session starts. *)
Theorem saved_circles_are_reloaded d name w q w1 :
  annotate_and_save imread d name w = Returned q w1 ->
  exists existing wa circles wb again w2,
    read_csv (csv_path_of d name) w = Returned existing wa /\
    annotate_image imread (OsPath.join d name) existing
      (add_line (annotating_message name) wa) = Returned (circles, q) wb /\
    read_csv (csv_path_of d name) w1 = Returned again w2 /\
    objects w2 !! again = Some (objects wb !!! circles) /\
    circles_of (initial_session (objects w2) again) = objects wb !!! circles.
Proof.
  intros Hrun. rewrite annotate_and_save_unfold in Hrun.
  destruct (read_csv (csv_path_of d name) w) as [existing wa|e wa|wa] eqn:Hread;
    try discriminate.
  destruct (annotate_image imread (OsPath.join d name) existing
              (add_line (annotating_message name) wa))
    as [[circles q'] wb|e wb|wb] eqn:Hann; try discriminate.
  injection Hrun as -> <-.
  exists existing, wa, circles, wb. eexists _, _.
  split; [reflexivity|]. split; [exact Hann|]. split.
  - apply read_csv_returns. cbn [files set_files add_line].
    apply read_csv_value_written.
  - cbn [objects set_objects set_files add_line].
    split; [apply lookup_insert_eq|].
    rewrite initial_session_circles. apply lookup_total_insert_eq.
Qed.

(** In the Idle state quiet events change nothing, so a state that was
    drawn is drawn again. *)
Lemma quiet_idle_run_loop qs : forall at_top st,
  forallb quiet qs = true -> drawing st = false -> renders st = true ->
  run_loop at_top qs st = Ran (Waiting st).
Proof.
  induction qs as [|e qs IH]; intros at_top st Hq Hd Hr;
    cbn [run_loop]; rewrite Hr, andb_false_r; [reflexivity|].
  simpl in Hq. apply andb_prop in Hq as [He Hqs].
  destruct e as [kind x y|code]; simpl in He.
  - apply negb_true_iff in He. unfold on_mouse. rewrite He, Hd, andb_false_r.
    now apply IH.
  - apply andb_prop in He as [[H1 H2]%andb_prop H3].
    apply negb_true_iff in H1, H2, H3.
    unfold on_key. rewrite H1, H2, H3. cbn [andb]. now apply IH.
Qed.

(** X15.  Looking at an image and finishing without a change keeps its
    annotations: when the CSV on file is one [write_csv] wrote with circles
    that [cv2.circle] draws, the image decodes and the user only makes
    quiet moves before the finish key, the files are afterwards exactly as
    before, and [quit_all] is not set. *)
Theorem revisit_without_change_keeps_csv d name w cs qs code rest :
  imread (OsPath.join d name) = true ->
  files w !! csv_path_of d name = Some (csv_text cs) ->
  forallb drawable cs = true ->
  events w = qs ++ Key code :: rest ->
  forallb quiet qs = true ->
  Z.land code 255 = KEY_SPACE ->
  exists w',
    annotate_and_save imread d name w = Returned false w' /\
    files w' = files w /\ events w' = rest.
Proof.
  intros Him Hfile Hdraw Hev Hq Hk.
  rewrite annotate_and_save_unfold.
  rewrite (read_csv_returns _ _ _ (read_csv_value_of_written _ _ _ Hfile)).
  rewrite annotate_image_decodable by exact Him.
  cbn [events objects set_objects add_line]. rewrite Hev.
  set (h := <[fresh (dom (objects w)) := cs]> (objects w)).
  set (st0 := initial_session h (fresh (dom (objects w)))).
  assert (Hcs : circles_of st0 = cs).
  { unfold st0. rewrite initial_session_circles.
    unfold h. now rewrite lookup_total_insert_eq. }
  assert (Hr : renders st0 = true).
  { unfold renders. rewrite Hcs, Hdraw. reflexivity. }
  rewrite (run_loop_app_top qs _ true st0 st0)
    by now apply quiet_idle_run_loop.
  cbn [run_loop andb].
  assert (Hstep : on_key code st0 = Break st0).
  { unfold on_key. rewrite Hk. reflexivity. }
  rewrite Hstep. eexists. split; [reflexivity|].
  cbn [files events set_files add_line objects]. split; [|reflexivity].
  apply insert_id. rewrite Hfile. f_equal. f_equal.
  symmetry. exact Hcs.
Qed.

Lemma run_loop_first_draw evs st :
  renders st = false -> run_loop true evs st = Crashed st evs.
Proof. intros Hr. destruct evs; cbn [run_loop]; now rewrite Hr. Qed.

(** X6.  A circle on file that [cv2.circle] does not draw (a negative
    radius, or a number outside the C [int] range) stops the session of a
    decodable image at its first drawing: [annotate_and_save] raises
    [cv2.error] before any input is read, and no file is written. *)
Theorem undrawable_circle_stops_session d name w cs :
  imread (OsPath.join d name) = true ->
  read_csv_value (files w) (csv_path_of d name) = inr cs ->
  forallb drawable cs = false ->
  exists w',
    annotate_and_save imread d name w = Raised CvError w' /\
    files w' = files w /\ events w' = events w.
Proof.
  intros Him Hread Hdraw.
  rewrite annotate_and_save_unfold, (read_csv_returns _ _ _ Hread).
  rewrite annotate_image_decodable by exact Him.
  cbn [events objects set_objects add_line].
  rewrite run_loop_first_draw.
  - eexists. split; [reflexivity|]. now split.
  - unfold renders. rewrite initial_session_circles, lookup_total_insert_eq.
    now rewrite Hdraw.
Qed.

(** X16.  Help, a missing dataset folder and a folder without images, in this
    order of precedence, end [main] before any window work: it prints one
    message and returns, having written no file, read no event and
    allocated nothing. *)
Theorem main_stops_before_annotating argv0 args w d target help w0 :
  parse_args args w = Returned (d, target, help) w0 ->
  help = true \/ listdir d = None
  \/ (exists names, listdir d = Some names /\ list_images names = []) ->
  main imread listdir argv0 args w =
    (if help then print_help argv0 w0
     else match listdir d with
          | None => print ("Dataset folder not found: " +:+ d) w0
          | Some _ => print ("No images found in " +:+ d) w0
          end) /\
  exists w',
    main imread listdir argv0 args w = Returned tt w' /\
    files w' = files w /\ events w' = events w /\ objects w' = objects w.
Proof.
  intros Hparse Hcase.
  destruct (parse_args_frame _ _ _ _ Hparse) as (Hf & Ho & He).
  unfold main, bind. rewrite Hparse.
  destruct help.
  { split; [reflexivity|]. eexists. split; [reflexivity|]. now repeat split. }
  destruct Hcase as [Hh|[Hnone|(names & Hdir & Hempty)]]; [discriminate| |].
  - rewrite Hnone. split; [reflexivity|].
    eexists. split; [reflexivity|]. now repeat split.
  - rewrite Hdir, Hempty. split; [reflexivity|].
    eexists. split; [reflexivity|]. now repeat split.
Qed.

End DriverMore.

(** *** The further properties at concrete inputs *)

Lemma annotate_image_returns_new_list_witness :
  let w := mkWorld ∅ (<[0%nat := [(1, 2, 3)]]> ∅) []
             [Mouse EVENT_LBUTTONDOWN 5 5; Mouse EVENT_LBUTTONDOWN 5 9;
              Key KEY_SPACE] in
  exists a w',
    annotate_image (fun _ => true) "d/a.png" 0%nat w = Returned (a, false) w' /\
    objects w !! a = None /\
    objects w' !! 0%nat = Some [(1, 2, 3)].
Proof.
  intros w. eexists _, _.
  assert (Hrun : annotate_image (fun _ => true) "d/a.png" 0%nat w
                 = Returned (_, false) _) by (vm_compute; reflexivity).
  destruct (annotate_image_returns_new_list (fun _ => true) "d/a.png" 0%nat w
              _ _ _ Hrun) as (Hnew & _ & Hold & _).
  split; [exact Hrun|]. split; [exact Hnew|].
  exact (Hold 0%nat ltac:(exists [(1, 2, 3)]; reflexivity)).
Defined.

Lemma nothing_saved_unless_returned_witness :
  files (final_world
           (annotate_and_save (fun _ => true) "d" "a.png"
              (example_world [Key KEY_U; Mouse EVENT_LBUTTONDOWN 5 5])))
  = files (example_world [Key KEY_U; Mouse EVENT_LBUTTONDOWN 5 5]).
Proof.
  exact (nothing_saved_unless_returned (fun _ => true) "d" "a.png"
           (example_world [Key KEY_U; Mouse EVENT_LBUTTONDOWN 5 5])
           ltac:(intros q w'; vm_compute; discriminate)).
Defined.

Lemma main_writes_only_image_csvs_witness :
  files (final_world
           (main (fun _ => true) example_listdir "annotate.py"
              ["--dataset"; "d"]%string
              (example_world [Key KEY_U; Key KEY_SPACE; Key KEY_ESC])))
    !! "d/notes.txt"%string
  = files (example_world [Key KEY_U; Key KEY_SPACE; Key KEY_ESC])
      !! "d/notes.txt"%string.
Proof.
  exact (main_writes_only_image_csvs (fun _ => true) example_listdir
           "annotate.py" ["--dataset"; "d"]%string
           (example_world [Key KEY_U; Key KEY_SPACE; Key KEY_ESC])
           "d" None false
           (example_world [Key KEY_U; Key KEY_SPACE; Key KEY_ESC])
           "d/notes.txt" eq_refl
           ltac:(intros names name [= <-] Hin;
                 apply list_elem_of_In in Hin; vm_compute in Hin;
                 destruct Hin as [<-|[<-|[]]]; vm_compute; discriminate)).
Defined.

Lemma saved_circles_are_reloaded_witness :
  exists w1 again w2,
    annotate_and_save (fun _ => true) "d" "a.png"
      (example_world [Key KEY_U; Key KEY_SPACE]) = Returned false w1 /\
    read_csv "d/a.csv" w1 = Returned again w2 /\
    is_Some (objects w2 !! again).
Proof.
  eexists.
  assert (Hrun : annotate_and_save (fun _ => true) "d" "a.png"
                   (example_world [Key KEY_U; Key KEY_SPACE])
                 = Returned false _) by (vm_compute; reflexivity).
  destruct (saved_circles_are_reloaded (fun _ => true) "d" "a.png" _ _ _ Hrun)
    as (existing & wa & circles & wb & again & w2 & Hread & Hann & Hagain
        & Hobj & _).
  exists again, w2. split; [exact Hrun|]. split; [exact Hagain|].
  rewrite Hobj. eexists. reflexivity.
Defined.

Lemma revisit_without_change_keeps_csv_witness :
  exists w',
    annotate_and_save (fun _ => true) "d" "a.png"
      (example_world [Mouse EVENT_MOUSEMOVE 3 4; Key (-1); Key KEY_SPACE;
                      Key KEY_ESC])
    = Returned false w' /\
    files w' = files (example_world []) /\ events w' = [Key KEY_ESC].
Proof.
  exact (revisit_without_change_keeps_csv (fun _ => true) "d" "a.png"
           (example_world [Mouse EVENT_MOUSEMOVE 3 4; Key (-1); Key KEY_SPACE;
                           Key KEY_ESC])
           [(1, 2, 3); (4, 5, 6)] [Mouse EVENT_MOUSEMOVE 3 4; Key (-1)]
           KEY_SPACE [Key KEY_ESC]
           eq_refl ltac:(vm_compute; reflexivity) eq_refl eq_refl eq_refl
           eq_refl).
Defined.

Lemma undrawable_circle_stops_session_witness :
  let w := mkWorld (<["d/a.csv" := csv_text [(1, 2, -3)]]> ∅) ∅ []
             [Key KEY_SPACE] in
  exists w',
    annotate_and_save (fun _ => true) "d" "a.png" w = Raised CvError w' /\
    files w' = files w /\ events w' = [Key KEY_SPACE].
Proof.
  exact (undrawable_circle_stops_session (fun _ => true) "d" "a.png"
           (mkWorld (<["d/a.csv" := csv_text [(1, 2, -3)]]> ∅) ∅ []
              [Key KEY_SPACE])
           [(1, 2, -3)] eq_refl
           (read_csv_value_written ∅ "d/a.csv" [(1, 2, -3)]) eq_refl).
Defined.

Lemma main_stops_before_annotating_witness :
  exists w',
    main (fun _ => true) example_listdir "annotate.py"
      ["--dataset"; "elsewhere"]%string (example_world [Key KEY_ESC])
    = Returned tt w' /\
    files w' = files (example_world [Key KEY_ESC]) /\
    events w' = [Key KEY_ESC].
Proof.
  destruct (main_stops_before_annotating (fun _ => true) example_listdir
              "annotate.py" ["--dataset"; "elsewhere"]%string
              (example_world [Key KEY_ESC]) "elsewhere" None false
              (example_world [Key KEY_ESC]) eq_refl
              ltac:(right; left; reflexivity))
    as (_ & w' & Hrun & Hf & He & _).
  exists w'. split; [exact Hrun|]. split; [exact Hf | exact He].
Defined.
